(** * Citation extraction, formatting, assembly and validation

    A shallow embedding of [research/citation_manager.py] (class
    [CitationManager]) and of [Validators.validate_year] from
    [utils/validators.py], together with the properties the specification
    states about them.

    Conventions of the embedding.
    - A Python [str] is a [string]; a character is a code point below 256, so
      that the character tests below ([\s], [\d], [str.strip], [str.split])
      are the ones Python applies on that range.
    - A value of type [Any] that the code passes to [int(...)] or renders in
      an f-string is a [value]: an [int] or a [str].
    - A Python exception is an [exn] carried by [result]; code that cannot
      raise is a plain function.
    - [datetime.now().year] is an input of the validator, [current_year]. *)

From Stdlib Require Import ZArith Lia List Bool Ascii String.
From Stdlib Require Import Sorting.Sorted Sorting.Permutation.
From Stdlib Require Import Numbers.DecimalString.
From Stdlib Require OrderedTypeEx.
Import ListNotations.

Open Scope string_scope.

(** ** Python primitives used by the source *)

Module Py.

Inductive exn : Type := IndexError | ValueError | TypeError.

Inductive result (A : Type) : Type :=
| Ok (a : A)
| Raise (e : exn).

Arguments Ok {A} a.
Arguments Raise {A} e.

Definition bind {A B : Type} (m : result A) (f : A -> result B) : result B :=
  match m with
  | Ok a => f a
  | Raise e => Raise e
  end.

Definition is_ok {A : Type} (m : result A) : bool :=
  match m with Ok _ => true | Raise _ => false end.

(** Values of the two dynamic types the code handles as a year or stores
    as a citation number. *)
Inductive value : Type :=
| VInt (z : Z)
| VStr (s : string).

(** [sys.get_int_max_str_digits()], as the interpreter starts with it: the
    conversions between [int] and [str] raise [ValueError] beyond that many
    decimal digits. *)
Definition int_max_str_digits : nat := 4300.

(** [str(z)] for an [int]: [z] has more than [int_max_str_digits] digits
    when its absolute value reaches the power of ten with that exponent. *)
Definition str_of_Z (z : Z) : result string :=
  if (Z.abs z <? 10 ^ Z.of_nat int_max_str_digits)%Z
  then Ok (NilZero.string_of_int (Z.to_int z))
  else Raise ValueError.

(** [f"{v}"]. *)
Definition py_str (v : value) : result string :=
  match v with
  | VInt z => str_of_Z z
  | VStr s => Ok s
  end.

(** Truth value of a [str]: non-empty. *)
Definition str_truthy (s : string) : bool :=
  match s with EmptyString => false | String _ _ => true end.

(** Truth value of a list: non-empty. *)
Definition list_truthy {A : Type} (l : list A) : bool :=
  match l with [] => false | _ :: _ => true end.

Definition truthy (v : value) : bool :=
  match v with
  | VInt z => negb (Z.eqb z 0)
  | VStr s => str_truthy s
  end.

(** *** Character classes *)

Definition code (c : ascii) : nat := nat_of_ascii c.

Definition in_range (lo hi : nat) (c : ascii) : bool :=
  Nat.leb lo (code c) && Nat.leb (code c) hi.

Definition is_upper (c : ascii) : bool := in_range 65 90 c.
Definition is_lower (c : ascii) : bool := in_range 97 122 c.
Definition is_digit (c : ascii) : bool := in_range 48 57 c.

(** [str.isspace] on one character, also the class [\s] of [re]:
    TAB..CR, FS..US, SPACE, NEL and NBSP. *)
Definition is_space (c : ascii) : bool :=
  in_range 9 13 c || in_range 28 32 c || Nat.eqb (code c) 133
  || Nat.eqb (code c) 160.

Definition is_char (x : ascii) (c : ascii) : bool := Ascii.eqb c x.

(** *** String helpers *)

Fixpoint str_all (p : ascii -> bool) (s : string) : bool :=
  match s with
  | EmptyString => true
  | String c s' => p c && str_all p s'
  end.

Fixpoint take (n : nat) (s : string) : string :=
  match n, s with
  | S k, String c s' => String c (take k s')
  | _, _ => EmptyString
  end.

Fixpoint drop (n : nat) (s : string) : string :=
  match n, s with
  | S k, String _ s' => drop k s'
  | _, _ => s
  end.

(** [s.lstrip()], [s.rstrip()], [s.strip()]. *)
Fixpoint lstrip (s : string) : string :=
  match s with
  | String c s' => if is_space c then lstrip s' else s
  | EmptyString => EmptyString
  end.

Fixpoint rstrip (s : string) : string :=
  match s with
  | EmptyString => EmptyString
  | String c s' =>
      match rstrip s' with
      | EmptyString => if is_space c then EmptyString else String c EmptyString
      | r => String c r
      end
  end.

Definition strip (s : string) : string := rstrip (lstrip s).

(** [s.split()]: the maximal runs of non-whitespace characters. [tok] is
    the run being read. *)
Fixpoint split_go (s : string) (tok : string) : list string :=
  match s with
  | EmptyString => if str_truthy tok then [tok] else []
  | String c s' =>
      if is_space c
      then (if str_truthy tok then tok :: split_go s' EmptyString
            else split_go s' EmptyString)
      else split_go s' (tok ++ String c EmptyString)
  end.

Definition split (s : string) : list string := split_go s EmptyString.

(** [sep.join(l)]. *)
Definition join (sep : string) (l : list string) : string := concat sep l.

(** [l[i]] for a non-negative [i]. *)
Definition index {A : Type} (l : list A) (i : nat) : result A :=
  match nth_error l i with
  | Some a => Ok a
  | None => Raise IndexError
  end.

(** [l[-1]]. *)
Definition index_last {A : Type} (l : list A) : result A :=
  match rev l with
  | a :: _ => Ok a
  | [] => Raise IndexError
  end.

(** [s[0]], a one-character string. *)
Definition str_index0 (s : string) : result string :=
  match s with
  | String c _ => Ok (String c EmptyString)
  | EmptyString => Raise IndexError
  end.

(** *** [int(...)] *)

Definition digit_val (c : ascii) : Z := Z.of_nat (code c) - 48.

(** Decimal digits, single underscores allowed between two digits.
    [prev] tells whether the previous character was a digit. *)
Fixpoint parse_digits (s : string) (acc : Z) (prev : bool) : option Z :=
  match s with
  | EmptyString => if prev then Some acc else None
  | String c s' =>
      if is_digit c then parse_digits s' (10 * acc + digit_val c) true
      else if is_char "_" c && prev then parse_digits s' acc false
      else None
  end.

(** The whitespace [int] skips around a number: TAB..CR and SPACE, and NEL
    and NBSP, but not FS..US, which [str.strip] removes. *)
Definition is_int_space (c : ascii) : bool :=
  in_range 9 13 c || Nat.eqb (code c) 32 || Nat.eqb (code c) 133
  || Nat.eqb (code c) 160.

Fixpoint int_lstrip (s : string) : string :=
  match s with
  | String c s' => if is_int_space c then int_lstrip s' else s
  | EmptyString => EmptyString
  end.

Fixpoint int_rstrip (s : string) : string :=
  match s with
  | EmptyString => EmptyString
  | String c s' =>
      match int_rstrip s' with
      | EmptyString => if is_int_space c then EmptyString else String c EmptyString
      | r => String c r
      end
  end.

Fixpoint count_digits (s : string) : nat :=
  match s with
  | EmptyString => 0
  | String c s' => (if is_digit c then 1 else 0) + count_digits s'
  end.

(** The digits of a literal, sign apart: [ValueError] for more than
    [int_max_str_digits] digits, underscores not counted. *)
Definition parse_literal (r : string) : option Z :=
  if Nat.ltb int_max_str_digits (count_digits r) then None
  else parse_digits r 0 false.

(** [int(s)] for a [str]: surrounding whitespace, an optional sign. *)
Definition int_of_str (s : string) : option Z :=
  match int_rstrip (int_lstrip s) with
  | String "+" r => parse_literal r
  | String "-" r => option_map Z.opp (parse_literal r)
  | r => parse_literal r
  end.

(** [int(v)]; [None] stands for [ValueError]. *)
Definition py_int (v : value) : option Z :=
  match v with
  | VInt z => Some z
  | VStr s => int_of_str s
  end.

(** *** [list.sort()] on strings

    The built-in sort is stable and compares with [<] on [str], the
    lexicographic order of code points. *)
Fixpoint insert (x : string) (l : list string) : list string :=
  match l with
  | [] => [x]
  | y :: l' => if String.ltb y x then y :: insert x l' else x :: y :: l'
  end.

Fixpoint sort (l : list string) : list string :=
  match l with
  | [] => []
  | x :: l' => insert x (sort l')
  end.

End Py.

Import Py.

Notation "x <- m ;; k" := (bind m (fun x => k))
  (at level 61, m at next level, right associativity).

(** ** The fragment of [re] the source uses

    A backtracking matcher in continuation-passing style, the way [re]
    explores a pattern: alternatives are tried in order, a greedy quantifier
    first takes as much as it can and gives characters back one at a time.
    Both patterns of the source quantify only over single-character sets and
    do not nest their groups, and so does [regex]. *)

Module Re.

Inductive regex : Type :=
| Chars (p : ascii -> bool)          (* a literal, an escape class, a [...] set *)
| Cat (r1 r2 : regex)                (* r1 r2 *)
| Group (r : regex)                  (* ( r ) *)
| Plus (p : ascii -> bool)           (* set+ *)
| Star (p : ascii -> bool)           (* set* *)
| Opt (p : ascii -> bool)            (* set? *)
| Count (n : nat) (p : ascii -> bool). (* set{n} *)

Section Exec.
Variable R : Type.

(** Greedy [set*] followed by the continuation [k]. *)
Fixpoint star (p : ascii -> bool) (s : string)
         (k : string -> option R) : option R :=
  match s with
  | String c s' =>
      if p c
      then match star p s' k with
           | Some r => Some r
           | None => k s
           end
      else k s
  | EmptyString => k s
  end.

Fixpoint count (n : nat) (p : ascii -> bool) (s : string)
         (k : string -> option R) : option R :=
  match n with
  | O => k s
  | S n' =>
      match s with
      | String c s' => if p c then count n' p s' k else None
      | EmptyString => None
      end
  end.

(** [exec r s caps k]: match [r] at the front of [s], having captured
    [caps] so far, then continue with [k] on what is left. *)
Fixpoint exec (r : regex) (s : string) (caps : list string)
         (k : string -> list string -> option R) : option R :=
  match r with
  | Chars p =>
      match s with
      | String c s' => if p c then k s' caps else None
      | EmptyString => None
      end
  | Cat r1 r2 => exec r1 s caps (fun s1 caps1 => exec r2 s1 caps1 k)
  | Group r1 =>
      exec r1 s caps
           (fun s1 caps1 =>
              k s1 (caps1 ++ [take (String.length s - String.length s1) s])%list)
  | Plus p =>
      match s with
      | String c s' =>
          if p c then star p s' (fun s1 => k s1 caps) else None
      | EmptyString => None
      end
  | Star p => star p s (fun s1 => k s1 caps)
  | Opt p =>
      match s with
      | String c s' =>
          if p c
          then match k s' caps with
               | Some r => Some r
               | None => k s caps
               end
          else k s caps
      | EmptyString => k s caps
      end
  | Count n p => count n p s (fun s1 => k s1 caps)
  end.
End Exec.

Arguments star {R} p s k.
Arguments count {R} n p s k.
Arguments exec {R} r s caps k.

(** A match of [r] at the front of [s]: the number of characters it
    takes and its groups. *)
Definition match_at (r : regex) (s : string) : option (nat * list string) :=
  exec r s [] (fun s1 caps => Some (String.length s - String.length s1, caps)).

(** The scanner behind [re.finditer] and [re.findall]: the leftmost match,
    then the leftmost match after its end, and so on. [skip] counts the
    characters still covered by the last match, [pos] is the index of the
    front of [s] in the text. *)
Fixpoint scan (r : regex) (s : string) (skip pos : nat)
  : list (nat * list string) :=
  match skip with
  | S k =>
      match s with
      | String _ s' => scan r s' k (S pos)
      | EmptyString => []
      end
  | O =>
      match match_at r s with
      | Some (n, caps) =>
          (pos, caps)
            :: match s with
               | String _ s' => scan r s' (Nat.pred n) (S pos)
               | EmptyString => []
               end
      | None =>
          match s with
          | String _ s' => scan r s' 0 (S pos)
          | EmptyString => []
          end
      end
  end.

Definition finditer (r : regex) (text : string) : list (nat * list string) :=
  scan r text 0 0.

(** [re.findall]: the groups of every match. *)
Definition findall (r : regex) (text : string) : list (list string) :=
  map snd (finditer r text).

(** [m[i]] on the groups of a match. *)
Definition group (m : list string) (i : nat) : string := nth i m EmptyString.

(** [avoids c0 r]: no character set of [r] contains [c0]. *)
Fixpoint avoids (c0 : ascii) (r : regex) : bool :=
  match r with
  | Chars p | Plus p | Star p | Opt p | Count _ p => negb (p c0)
  | Cat r1 r2 => avoids c0 r1 && avoids c0 r2
  | Group r1 => avoids c0 r1
  end.

Definition differs (c0 : ascii) (c : ascii) : bool := negb (Ascii.eqb c c0).

(** The first [n] characters of [s] all differ from [c0]. *)
Fixpoint front_free (c0 : ascii) (n : nat) (s : string) : bool :=
  match n, s with
  | S k, String a s' => differs c0 a && front_free c0 k s'
  | _, _ => true
  end.

(** No match of [r] has [c0] past its first character. *)
Definition interior_free (c0 : ascii) (r : regex) : Prop :=
  forall s n caps,
    match_at r s = Some (n, caps) ->
    exists a w s1,
      s = String a (w ++ s1) /\ n = S (String.length w)
      /\ str_all (differs c0) w = true.

(** The text stops the set [p]: it is over, or its first character is
    not in [p]. *)
Definition stops (p : ascii -> bool) (s : string) : Prop :=
  match s with
  | String c _ => p c = false
  | EmptyString => True
  end.

End Re.

Import Re.

(** ** [CitationManager.extract_citations] *)

(** The dictionaries the extractor appends: [{"authors", "year",
    "type": "in-text"}] and [{"number", "type": "numbered"}]. *)
Inductive mention : Type :=
| InText (authors year : string)
| Numbered (number : value).

(** [[a-zA-Z\s&,]] *)
Definition author_char (c : ascii) : bool :=
  is_lower c || is_upper c || is_space c || is_char "&" c || is_char "," c.

(** [\(([A-Z][a-zA-Z\s&,]+),?\s*(\d{4})\)] *)
Definition pattern1 : regex :=
  Cat (Chars (is_char "("))
   (Cat (Group (Cat (Chars is_upper) (Plus author_char)))
    (Cat (Opt (is_char ","))
     (Cat (Star is_space)
      (Cat (Group (Count 4 is_digit))
           (Chars (is_char ")")))))).

(** [\[(\d+)\]] *)
Definition pattern2 : regex :=
  Cat (Chars (is_char "["))
   (Cat (Group (Plus is_digit))
        (Chars (is_char "]"))).

Definition in_text_of (m : list string) : mention :=
  InText (strip (group m 0)) (group m 1).

(** With a single group [findall] yields the group itself, a [str]. *)
Definition numbered_of (m : list string) : mention :=
  Numbered (VStr (group m 0)).

(** A [for m in matches: citations.append(f m)] loop. *)
Definition append_each {A B : Type} (f : A -> B) (matches : list A)
           (citations : list B) : list B :=
  fold_left (fun acc m => (acc ++ [f m])%list) matches citations.

Definition extract_citations (text : string) : list mention :=
  let citations := [] in
  let matches1 := findall pattern1 text in
  let citations := append_each in_text_of matches1 citations in
  let matches2 := findall pattern2 text in
  let citations := append_each numbered_of matches2 citations in
  citations.

Definition spec_example_text : string :=
  "According to Smith (2023), models improve accuracy. See also [4] for a survey.".

(** The text of [test_extract_citations] in the test suite, which expects
    at least two citations from it. *)
Definition test_extract_text : string :=
  "According to Smith (2023), this is important. Jones et al. (2022) disagree.".

(** ** [CitationManager.format_citation] and the five formatters *)

(** The double quote character. *)
Definition dq : string := String (ascii_of_nat 34) EmptyString.

(** The arguments every formatter receives. *)
Record record : Type := {
  authors : list string;
  year : value;
  title : string;
  journal : string;
  volume : string;
  issue : string;
  pages : string;
  doi : string
}.

(** [if cond: citation += suffix] *)
Definition add_if (cond : bool) (suffix : string) (citation : string) : string :=
  if cond then citation ++ suffix else citation.

Definition apa_author_str (authors : list string) : result string :=
  if Nat.eqb (List.length authors) 1 then
    index authors 0
  else if Nat.eqb (List.length authors) 2 then
    a0 <- index authors 0 ;;
    a1 <- index authors 1 ;;
    Ok (a0 ++ " & " ++ a1)
  else
    a0 <- index authors 0 ;;
    Ok (a0 ++ " et al.").

Definition _format_apa (r : record) : result string :=
  author_str <- apa_author_str (authors r) ;;
  year_str <- py_str (year r) ;;
  let citation := author_str ++ " (" ++ year_str ++ "). " ++ title r ++ "." in
  let citation :=
    if str_truthy (journal r) then
      let citation := citation ++ " " ++ journal r in
      let citation :=
        if str_truthy (volume r) then
          let citation := citation ++ ", " ++ volume r in
          add_if (str_truthy (issue r)) ("(" ++ issue r ++ ")") citation
        else citation in
      add_if (str_truthy (pages r)) (", " ++ pages r) citation
    else citation in
  let citation :=
    add_if (str_truthy (doi r)) (". https://doi.org/" ++ doi r) citation in
  Ok citation.

Definition mla_author_str (authors : list string) : result string :=
  if Nat.eqb (List.length authors) 1 then
    index authors 0
  else if Nat.eqb (List.length authors) 2 then
    a0 <- index authors 0 ;;
    a1 <- index authors 1 ;;
    Ok (a0 ++ ", and " ++ a1)
  else
    a0 <- index authors 0 ;;
    Ok (a0 ++ ", et al.").

Definition _format_mla (r : record) : result string :=
  author_str <- mla_author_str (authors r) ;;
  let citation := author_str ++ ". " ++ dq ++ title r ++ "." ++ dq in
  citation <-
    (if str_truthy (journal r) then
       let citation := citation ++ " " ++ journal r in
       let citation :=
         add_if (str_truthy (volume r)) (", vol. " ++ volume r) citation in
       let citation :=
         add_if (str_truthy (issue r)) (", no. " ++ issue r) citation in
       year_str <- py_str (year r) ;;
       let citation := citation ++ ", " ++ year_str in
       Ok (add_if (str_truthy (pages r)) (", pp. " ++ pages r) citation)
     else Ok citation) ;;
  Ok (citation ++ ".").

Definition chicago_author_str (authors : list string) : string :=
  join ", " authors.

Definition _format_chicago (r : record) : result string :=
  let author_str := chicago_author_str (authors r) in
  let citation := author_str ++ ". " ++ dq ++ title r ++ "." ++ dq in
  citation <-
    (if str_truthy (journal r) then
       let citation := citation ++ " " ++ journal r ++ " " ++ volume r in
       let citation :=
         add_if (str_truthy (issue r)) (", no. " ++ issue r) citation in
       year_str <- py_str (year r) ;;
       let citation := citation ++ " (" ++ year_str ++ ")" in
       Ok (add_if (str_truthy (pages r)) (": " ++ pages r) citation)
     else Ok citation) ;;
  let citation :=
    add_if (str_truthy (doi r)) (". https://doi.org/" ++ doi r) citation in
  Ok (citation ++ ".").

(** [[p[0] for p in parts]] *)
Fixpoint first_chars (parts : list string) : result (list string) :=
  match parts with
  | [] => Ok []
  | p :: parts' =>
      c <- str_index0 p ;;
      cs <- first_chars parts' ;;
      Ok (c :: cs)
  end.

(** The body of the loop over [authors]: what is appended for one name. *)
Definition ieee_format_author (author : string) : result string :=
  let parts := split author in
  if Nat.leb 2 (List.length parts) then
    cs <- first_chars (removelast parts) ;;
    let initials := join ". " cs ++ "." in
    surname <- index_last parts ;;
    Ok (initials ++ " " ++ surname)
  else
    Ok author.

(** The loop, [formatted_authors] growing by one name a turn. *)
Fixpoint ieee_loop (authors : list string) (formatted_authors : list string)
  : result (list string) :=
  match authors with
  | [] => Ok formatted_authors
  | author :: rest =>
      f <- ieee_format_author author ;;
      ieee_loop rest (formatted_authors ++ [f])%list
  end.

Definition ieee_author_str (authors : list string) : result string :=
  formatted_authors <- ieee_loop authors [] ;;
  if Nat.ltb 3 (List.length formatted_authors) then
    f0 <- index formatted_authors 0 ;;
    Ok (f0 ++ " et al.")
  else
    Ok (join ", " formatted_authors).

Definition _format_ieee (r : record) : result string :=
  author_str <- ieee_author_str (authors r) ;;
  let citation := author_str ++ ", " ++ dq ++ title r ++ "," ++ dq in
  citation <-
    (if str_truthy (journal r) then
       let citation := citation ++ " " ++ journal r in
       let citation :=
         add_if (str_truthy (volume r)) (", vol. " ++ volume r) citation in
       let citation :=
         add_if (str_truthy (issue r)) (", no. " ++ issue r) citation in
       let citation :=
         add_if (str_truthy (pages r)) (", pp. " ++ pages r) citation in
       year_str <- py_str (year r) ;;
       Ok (citation ++ ", " ++ year_str)
     else Ok citation) ;;
  Ok (citation ++ ".").

Definition harvard_author_str (authors : list string) : result string :=
  if Nat.eqb (List.length authors) 1 then
    index authors 0
  else if Nat.eqb (List.length authors) 2 then
    a0 <- index authors 0 ;;
    a1 <- index authors 1 ;;
    Ok (a0 ++ " and " ++ a1)
  else
    a0 <- index authors 0 ;;
    Ok (a0 ++ " et al.").

Definition _format_harvard (r : record) : result string :=
  author_str <- harvard_author_str (authors r) ;;
  year_str <- py_str (year r) ;;
  let citation := author_str ++ " " ++ year_str ++ ", '" ++ title r ++ "'" in
  let citation :=
    if str_truthy (journal r) then
      let citation := citation ++ ", " ++ journal r in
      let citation :=
        add_if (str_truthy (volume r)) (", vol. " ++ volume r) citation in
      let citation :=
        add_if (str_truthy (issue r)) (", no. " ++ issue r) citation in
      add_if (str_truthy (pages r)) (", pp. " ++ pages r) citation
    else citation in
  Ok (citation ++ ".").

(** The [formatters] dictionary, in the order it is written. *)
Definition formatters : list (string * (record -> result string)) :=
  [ ("APA 7th", _format_apa);
    ("MLA 9th", _format_mla);
    ("Chicago 17th", _format_chicago);
    ("IEEE", _format_ieee);
    ("Harvard", _format_harvard) ].

(** [d.get(key, default)] on a dictionary written as its items. *)
Fixpoint dict_get {V : Type} (d : list (string * V)) (key : string) (default : V) : V :=
  match d with
  | [] => default
  | (k, v) :: d' => if String.eqb k key then v else dict_get d' key default
  end.

Definition format_citation (r : record) (style : string) : result string :=
  let formatter := dict_get formatters style _format_apa in
  formatter r.

(** ** [CitationManager.generate_bibliography] *)

(** A citation dictionary: each key the code reads may be absent. *)
Record citation : Type := {
  c_authors : option (list string);
  c_year : option value;
  c_title : option string;
  c_journal : option string;
  c_volume : option string;
  c_issue : option string;
  c_pages : option string;
  c_doi : option string
}.

(** [citation.get(key, default)] *)
Definition get {A : Type} (field : option A) (default : A) : A :=
  match field with Some a => a | None => default end.

Definition record_of (c : citation) : record :=
  {| authors := get (c_authors c) [];
     year := get (c_year c) (VStr "");
     title := get (c_title c) "";
     journal := get (c_journal c) "";
     volume := get (c_volume c) "";
     issue := get (c_issue c) "";
     pages := get (c_pages c) "";
     doi := get (c_doi c) "" |}.

(** The loop, [bibliography] growing by one entry a turn. *)
Fixpoint bibliography_loop (citations : list citation) (style : string)
         (bibliography : list string) : result (list string) :=
  match citations with
  | [] => Ok bibliography
  | c :: rest =>
      formatted <- format_citation (record_of c) style ;;
      bibliography_loop rest style (bibliography ++ [formatted])%list
  end.

Definition generate_bibliography (citations : list citation) (style : string)
  : result string :=
  bibliography <- bibliography_loop citations style [] ;;
  let bibliography := sort bibliography in
  Ok (join (String "010" (String "010" "")) bibliography).

(** ** [CitationManager.validate_citation] and [Validators.validate_year] *)

(** [field not in citation or not citation[field]] *)
Definition missing_or_falsy {A : Type} (truth : A -> bool) (field : option A) : bool :=
  match field with
  | None => true
  | Some a => negb (truth a)
  end.

Definition validate_citation (current_year : Z) (c : citation) : bool :=
  if missing_or_falsy list_truthy (c_authors c) then false
  else if missing_or_falsy truthy (c_year c) then false
  else if missing_or_falsy str_truthy (c_title c) then false
  else
    match c_year c with
    | None => false
    | Some y =>
        match py_int y with
        | Some year =>
            if (year <? 1500)%Z || (current_year + 1 <? year)%Z then false
            else true
        | None => false
        end
    end.

Definition validate_year (year : value) : bool :=
  match py_int year with
  | Some year_int => (1900 <=? year_int)%Z && (year_int <=? 2030)%Z
  | None => false
  end.

(** The style tags [format_citation] dispatches on. *)
Definition supported_styles : list string := map fst formatters.

(** The formatted strings of the citations, in input order. *)
Fixpoint format_each (style : string) (citations : list citation)
  : result (list string) :=
  match citations with
  | [] => Ok []
  | c :: rest =>
      formatted <- format_citation (record_of c) style ;;
      others <- format_each style rest ;;
      Ok (formatted :: others)
  end.

(** The order of [<=] on [str]. *)
Definition str_le (a b : string) : Prop := String.leb a b = true.

(** The separator of the bibliography, two line feeds. *)
Definition blank_line : string :=
  String (ascii_of_nat 10) (String (ascii_of_nat 10) "").

(** A citation dictionary with the required keys only. *)
Definition citation_of (a : list string) (y : value) (t : string) : citation :=
  {| c_authors := Some a; c_year := Some y; c_title := Some t;
     c_journal := None; c_volume := None; c_issue := None;
     c_pages := None; c_doi := None |}.

(** The IEEE name transform in the words of the specification: every token
    but the last gives its first character, these are joined by [". "] and
    closed by a period, then come a space and the last token. *)
Definition first_letter (token : string) : string :=
  match token with
  | String c _ => String c ""
  | EmptyString => ""
  end.

Definition spec_ieee_name (author : string) : string :=
  let tokens := split author in
  if Nat.leb 2 (List.length tokens) then
    join ". " (map first_letter (removelast tokens)) ++ "." ++ " " ++ last tokens ""
  else author.

Definition spec_ieee_authors_clause (authors : list string) : string :=
  let names := map spec_ieee_name authors in
  if Nat.ltb 3 (List.length authors) then hd "" names ++ " et al."
  else join ", " names.

(** A two-author journal article, as the test suite formats it. *)
Definition test_record : record :=
  {| authors := ["Smith, J."; "Jones, K."];
     year := VInt 2023;
     title := "Test Article";
     journal := "Test Journal";
     volume := "10";
     issue := "2";
     pages := "100-110";
     doi := "" |}.

(** ** [Config] and the validators that read it

    [config/settings.py] fixes the citation styles; the allowed file types
    and the size limit come from the environment and are inputs here. *)

Definition CITATION_STYLES : list string :=
  ["APA 7th"; "MLA 9th"; "Chicago 17th"; "IEEE"; "Harvard"].

(** [x in l] for a list of strings. *)
Definition str_in (x : string) (l : list string) : bool :=
  existsb (String.eqb x) l.

Definition validate_citation_style (style : string) : bool :=
  str_in style CITATION_STYLES.

(** The name a style puts first: the IEEE formatter rewrites it. *)
Definition leading_name (style : string) (author : string) : string :=
  if String.eqb style "IEEE" then spec_ieee_name author else author.

(** ** What a pattern matches

    [derives r w gs]: the pattern [r] matches the whole of [w] and its
    groups, in the order they close, capture [gs]. [lang r w] forgets the
    groups. *)

Fixpoint derives (r : regex) (w : string) (gs : list string) : Prop :=
  match r with
  | Chars p => gs = [] /\ exists c, w = String c "" /\ p c = true
  | Cat r1 r2 =>
      exists w1 w2 g1 g2,
        w = w1 ++ w2 /\ gs = (g1 ++ g2)%list
        /\ derives r1 w1 g1 /\ derives r2 w2 g2
  | Group r1 => exists g, gs = (g ++ [w])%list /\ derives r1 w g
  | Plus p => gs = [] /\ w <> "" /\ str_all p w = true
  | Star p => gs = [] /\ str_all p w = true
  | Opt p => gs = [] /\ (w = "" \/ exists c, w = String c "" /\ p c = true)
  | Count n p => gs = [] /\ String.length w = n /\ str_all p w = true
  end.

Fixpoint lang (r : regex) (w : string) : Prop :=
  match r with
  | Chars p => exists c, w = String c "" /\ p c = true
  | Cat r1 r2 => exists w1 w2, w = w1 ++ w2 /\ lang r1 w1 /\ lang r2 w2
  | Group r1 => lang r1 w
  | Plus p => w <> "" /\ str_all p w = true
  | Star p => str_all p w = true
  | Opt p => w = "" \/ exists c, w = String c "" /\ p c = true
  | Count n p => String.length w = n /\ str_all p w = true
  end.

(** Formatting a rearranged list gives the rearranged strings, or fails
    as the first list does, though not always with the same exception. *)
Definition same_formatted (a b : result (list string)) : Prop :=
  match a, b with
  | Ok l, Ok l' => Permutation l l'
  | Raise _, Raise _ => True
  | _, _ => False
  end.

(** ** The validators of [utils/validators.py] that match a pattern

    Each one is [bool(re.match(p, s))] for a pattern [^...$]: [re.match]
    tries the start of the text only, where [^] holds, and [$] holds at the
    end of the text and before a line feed that ends it. A bounded
    repetition [set{n,}] is [set{n}] followed by [set*]. *)

Definition LF : string := String "010" "".

(** [$] *)
Definition at_dollar (s : string) : bool :=
  match s with
  | EmptyString => true
  | String c EmptyString => is_char "010" c
  | String _ (String _ _) => false
  end.

Definition match_anchored (r : regex) (s : string) : bool :=
  match exec r s [] (fun s1 _ => if at_dollar s1 then Some tt else None) with
  | Some _ => true
  | None => false
  end.

(** [[a-zA-Z0-9]] *)
Definition is_alnum (c : ascii) : bool := is_lower c || is_upper c || is_digit c.

(** [[a-zA-Z0-9_-]] *)
Definition api_key_char (c : ascii) : bool :=
  is_alnum c || is_char "_" c || is_char "-" c.

(** [^[a-zA-Z0-9_-]{20,}$] *)
Definition api_key_pattern : regex :=
  Cat (Count 20 api_key_char) (Star api_key_char).

Definition api_key_placeholder : string := "your_api_key_here_replace_this".

Definition validate_api_key (api_key : string) : bool :=
  if negb (str_truthy api_key) then false
  else if String.eqb api_key api_key_placeholder then false
  else match_anchored api_key_pattern api_key.

(** [[a-zA-Z0-9._%+-]], [[a-zA-Z0-9.-]], [[a-zA-Z]] *)
Definition email_local_char (c : ascii) : bool :=
  is_alnum c || is_char "." c || is_char "_" c || is_char "%" c
  || is_char "+" c || is_char "-" c.

Definition email_domain_char (c : ascii) : bool :=
  is_alnum c || is_char "." c || is_char "-" c.

Definition is_letter (c : ascii) : bool := is_lower c || is_upper c.

(** [^[a-zA-Z0-9._%+-]+@[a-zA-Z0-9.-]+\.[a-zA-Z]{2,}$] *)
Definition email_pattern : regex :=
  Cat (Plus email_local_char)
   (Cat (Chars (is_char "@"))
    (Cat (Plus email_domain_char)
     (Cat (Chars (is_char "."))
      (Cat (Count 2 is_letter) (Star is_letter))))).

Definition validate_email (email : string) : bool :=
  match_anchored email_pattern email.

(** [[-._;()\/:a-zA-Z0-9]] *)
Definition doi_char (c : ascii) : bool :=
  is_char "-" c || is_char "." c || is_char "_" c || is_char ";" c
  || is_char "(" c || is_char ")" c || is_char "/" c || is_char ":" c
  || is_alnum c.

(** [^10\.\d{4,}\/[-._;()\/:a-zA-Z0-9]+$] *)
Definition doi_pattern : regex :=
  Cat (Chars (is_char "1"))
   (Cat (Chars (is_char "0"))
    (Cat (Chars (is_char "."))
     (Cat (Count 4 is_digit)
      (Cat (Star is_digit)
       (Cat (Chars (is_char "/"))
            (Plus doi_char)))))).

Definition validate_doi (doi : string) : bool :=
  match_anchored doi_pattern doi.

(** ** More of [str]

    [s.lower()] on code points below 256, [sub in s], and [s.split(sep)]
    for a non-empty separator. *)

Definition lower_char (c : ascii) : ascii :=
  if is_upper c || in_range 192 214 c || in_range 216 222 c
  then ascii_of_nat (code c + 32)
  else c.

Fixpoint lower (s : string) : string :=
  match s with
  | EmptyString => EmptyString
  | String c s' => String (lower_char c) (lower s')
  end.

Fixpoint contains (sub s : string) : bool :=
  String.prefix sub s
  || match s with
     | String _ s' => contains sub s'
     | EmptyString => false
     end.

(** [skip] counts the characters left of the separator just found, [cur]
    is the piece being read. *)
Fixpoint split_str_go (sep s : string) (skip : nat) (cur : string) : list string :=
  match s with
  | EmptyString => [cur]
  | String c s' =>
      match skip with
      | S k => split_str_go sep s' k cur
      | O =>
          if String.prefix sep s
          then cur :: split_str_go sep s' (Nat.pred (String.length sep)) ""
          else split_str_go sep s' 0 (cur ++ String c "")
      end
  end.

Definition split_str (sep s : string) : list string := split_str_go sep s 0 "".

(** ** [Validators.validate_file_type]

    [Config.ALLOWED_FILE_TYPES] is read from the environment. *)

Definition validate_file_type (ALLOWED_FILE_TYPES : list string) (filename : string)
  : result bool :=
  if negb (str_truthy filename) then Ok false
  else
    last_part <- index_last (split_str "." filename) ;;
    let extension := lower last_part in
    Ok (str_in extension ALLOWED_FILE_TYPES).

(** ** [Validators.validate_research_question], [Validators.validate_hypothesis] *)

(** The result dictionary, keys ["valid"], ["issues"], ["suggestions"]. *)
Record validation : Type := {
  valid : bool;
  issues : list string;
  suggestions : list string
}.

Definition set_invalid (r : validation) : validation :=
  {| valid := false; issues := issues r; suggestions := suggestions r |}.

Definition add_issue (text : string) (r : validation) : validation :=
  {| valid := valid r; issues := (issues r ++ [text])%list; suggestions := suggestions r |}.

Definition add_suggestion (text : string) (r : validation) : validation :=
  {| valid := valid r; issues := issues r; suggestions := (suggestions r ++ [text])%list |}.

Definition question_words : list string :=
  ["what"; "how"; "why"; "when"; "where"; "who"; "which"; "does"; "do"; "is";
   "are"; "can"; "could"; "would"; "should"].

Definition validate_research_question (question : string) : validation :=
  let result := {| valid := true; issues := []; suggestions := [] |} in
  if negb (str_truthy question) then
    add_issue "Research question is empty" (set_invalid result)
  else
    let result :=
      if Nat.ltb (String.length question) 10 then
        add_suggestion "Provide a more detailed research question"
          (add_issue "Research question is too short" (set_invalid result))
      else result in
    let result :=
      if Nat.ltb 1000 (String.length question) then
        add_suggestion "Consider breaking into multiple sub-questions"
          (add_issue "Research question is very long" result)
      else result in
    let result :=
      if negb (existsb (fun word => contains word (lower question)) question_words)
         && negb (contains "?" question)
      then add_suggestion "Consider phrasing as a clear question" result
      else result in
    result.

Definition testable_keywords : list string :=
  ["will"; "should"; "increase"; "decrease"; "affect"; "influence"; "correlate";
   "predict"; "cause"; "lead to"; "result in"].

Definition validate_hypothesis (hypothesis : string) : validation :=
  let result := {| valid := true; issues := []; suggestions := [] |} in
  if negb (str_truthy hypothesis) then
    add_issue "Hypothesis is empty" (set_invalid result)
  else
    let result :=
      if Nat.ltb (String.length hypothesis) 20 then
        add_issue "Hypothesis is too short" (set_invalid result)
      else result in
    let result :=
      if negb (existsb (fun keyword => contains keyword (lower hypothesis))
                 testable_keywords)
      then add_suggestion "Ensure hypothesis is testable with clear predictions" result
      else result in
    let result :=
      if negb (contains "and" (lower hypothesis))
         && negb (contains "between" (lower hypothesis))
      then add_suggestion "Consider clearly stating the variables being tested" result
      else result in
    result.

(** ** [Helpers.parse_authors], [Helpers.truncate_text], [Helpers.chunk_list] *)

(** [,\s*&\s*] and [,\s*], the two alternatives of the pattern
    [parse_authors] splits on. *)
Definition comma_ampersand : regex :=
  Cat (Chars (is_char ","))
   (Cat (Star is_space) (Cat (Chars (is_char "&")) (Star is_space))).

Definition comma_space : regex :=
  Cat (Chars (is_char ",")) (Star is_space).

(** A pattern [r1|r2|...] with nothing after it: the first alternative
    that matches decides. *)
Fixpoint match_first (rs : list regex) (s : string) : option nat :=
  match rs with
  | [] => None
  | r :: rs' =>
      match match_at r s with
      | Some (n, _) => Some n
      | None => match_first rs' s
      end
  end.

(** [re.split] for alternatives that take one character at least. *)
Fixpoint re_split_go (rs : list regex) (s : string) (skip : nat) (cur : string)
  : list string :=
  match s with
  | EmptyString => [cur]
  | String c s' =>
      match skip with
      | S k => re_split_go rs s' k cur
      | O =>
          match match_first rs s with
          | Some (S n) => cur :: re_split_go rs s' n ""
          | _ => re_split_go rs s' 0 (cur ++ String c "")
          end
      end
  end.

Definition re_split (rs : list regex) (s : string) : list string :=
  re_split_go rs s 0 "".

Definition parse_authors (authors_str : string) : list string :=
  let authors :=
    if contains ";" authors_str then split_str ";" authors_str
    else if contains "," authors_str && contains "&" authors_str then
      re_split [comma_ampersand; comma_space] authors_str
    else if contains "," authors_str then split_str "," authors_str
    else if contains " and " authors_str then split_str " and " authors_str
    else [authors_str] in
  map strip (filter (fun author => str_truthy (strip author)) authors).

(** [s[:stop]] *)
Definition slice_to (s : string) (stop : Z) : string :=
  let n := Z.of_nat (String.length s) in
  let stop := if (stop <? 0)%Z then Z.max 0 (stop + n) else Z.min stop n in
  take (Z.to_nat stop) s.

Definition truncate_text (text : string) (max_length : Z) (suffix : string) : string :=
  if (Z.of_nat (String.length text) <=? max_length)%Z then text
  else slice_to text (max_length - Z.of_nat (String.length suffix)) ++ suffix.

(** [range(0, stop, step)] for [stop >= 0]: [ValueError] for a zero step,
    nothing for a negative one. *)
Definition range_from_0 (stop : nat) (step : Z) : result (list nat) :=
  if (step =? 0)%Z then Raise ValueError
  else if (step <? 0)%Z then Ok []
  else
    let k := Z.to_nat step in
    Ok (map (fun j => j * k) (seq 0 ((stop + k - 1) / k))).

(** [lst[i:i + chunk_size]] for [i >= 0] and [chunk_size > 0]. *)
Definition slice_chunk {A : Type} (lst : list A) (i : nat) (chunk_size : Z) : list A :=
  firstn (Z.to_nat chunk_size) (skipn i lst).

Definition chunk_list {A : Type} (lst : list A) (chunk_size : Z) : result (list (list A)) :=
  indices <- range_from_0 (List.length lst) chunk_size ;;
  Ok (map (fun i => slice_chunk lst i chunk_size) indices).

(** A token of [str.split()]: not empty, no whitespace. *)
Definition token (t : string) : Prop :=
  t <> "" /\ str_all (fun c => negb (is_space c)) t = true.

(** A citation dictionary whose record has an author and a year that [str]
    renders. *)
Definition formattable (c : citation) : Prop :=
  authors (record_of c) <> [] /\ is_ok (py_str (year (record_of c))) = true.

(** The last character of a text, if it has one. *)
Fixpoint last_char (s : string) : option ascii :=
  match s with
  | EmptyString => None
  | String c EmptyString => Some c
  | String _ s' => last_char s'
  end.

(** * Properties *)

(** ** Strings *)

Lemma append_assoc (a b c : string) : (a ++ b) ++ c = a ++ (b ++ c).
Proof.
  induction a as [| x a IH]; simpl; [reflexivity | now rewrite IH].
Qed.

Lemma append_nil_r (a : string) : a ++ "" = a.
Proof.
  induction a as [| x a IH]; simpl; [reflexivity | now rewrite IH].
Qed.

Lemma length_append (a b : string) :
  String.length (a ++ b) = String.length a + String.length b.
Proof.
  induction a as [| x a IH]; simpl; [reflexivity | now rewrite IH].
Qed.

Lemma take_append (a b : string) : take (String.length a) (a ++ b) = a.
Proof.
  induction a as [| x a IH]; simpl.
  - now destruct b.
  - now rewrite IH.
Qed.

Lemma drop_append (a b : string) : drop (String.length a) (a ++ b) = b.
Proof.
  induction a as [| x a IH]; simpl; [reflexivity | exact IH].
Qed.

Lemma take_drop (n : nat) (s : string) : take n s ++ drop n s = s.
Proof.
  revert s. induction n as [| n IH]; intros [| c s]; simpl; try reflexivity.
  now rewrite IH.
Qed.

Lemma length_take_drop (n : nat) (s : string) (c : ascii) (rest : string) :
  drop n s = String c rest -> String.length (take n s) = n.
Proof.
  revert s. induction n as [| n IH]; intros [| a s] H; simpl in *;
    try reflexivity; try discriminate.
  f_equal. now apply IH.
Qed.

Lemma str_all_append (p : ascii -> bool) (a b : string) :
  str_all p (a ++ b) = str_all p a && str_all p b.
Proof.
  induction a as [| x a IH]; simpl; [reflexivity |].
  now rewrite IH, andb_assoc.
Qed.

Ltac str_norm :=
  repeat first [rewrite !append_assoc | rewrite !append_nil_r | progress simpl].

(** ** The formatter *)

Lemma add_if_append (c : bool) (suffix a b : string) :
  add_if c suffix (a ++ b) = a ++ add_if c suffix b.
Proof.
  destruct c; simpl; [apply append_assoc | reflexivity].
Qed.

Lemma author_str_nonempty (a : string) (l : list string) :
  is_ok (apa_author_str (a :: l)) = true
  /\ is_ok (mla_author_str (a :: l)) = true
  /\ is_ok (harvard_author_str (a :: l)) = true.
Proof.
  destruct l as [| b [| c l]]; repeat split; reflexivity.
Qed.

(** C1, at the failing input. With an empty [authors] list the APA, MLA and
    Harvard formatters reach [authors[0]] through their [else] branch and
    raise [IndexError], and so does [format_citation] for these styles and
    for every unknown style; the Chicago and IEEE formatters return a
    string whose authors clause is empty, except that with a journal they
    render the year, and fail when [str] does not render it. *)
Theorem format_citation_empty_authors (y : value) (t j v i p d : string) :
  let r := {| authors := []; year := y; title := t; journal := j;
              volume := v; issue := i; pages := p; doi := d |} in
  format_citation r "APA 7th" = Raise IndexError
  /\ format_citation r "MLA 9th" = Raise IndexError
  /\ format_citation r "Harvard" = Raise IndexError
  /\ format_citation r "Vancouver" = Raise IndexError
  /\ chicago_author_str (authors r) = ""
  /\ ieee_author_str (authors r) = Ok ""
  /\ is_ok (format_citation r "Chicago 17th")
     = (negb (str_truthy j) || is_ok (py_str y))
  /\ is_ok (format_citation r "IEEE")
     = (negb (str_truthy j) || is_ok (py_str y)).
Proof.
  repeat split; try reflexivity;
    unfold format_citation; simpl;
    unfold _format_chicago, _format_ieee; simpl;
    destruct (str_truthy j); simpl; try reflexivity;
    destruct (py_str y); reflexivity.
Qed.

Lemma dict_get_default {V : Type} (d : list (string * V)) (key : string) (default : V) :
  ~ In key (map fst d) -> dict_get d key default = default.
Proof.
  induction d as [| [k v] d IH]; simpl; intros H; [reflexivity |].
  destruct (String.eqb_spec k key) as [-> | _].
  - exfalso; apply H; now left.
  - apply IH; intros Hin; apply H; now right.
Qed.

(** C5, at the failing input. A style that is not one of the five
    supported tags is formatted by the APA formatter: the result, a string
    or a failure, is the one of the default style ["APA 7th"] on the same
    record. An unknown tag therefore fails where the default style fails:
    on a record without authors it raises [IndexError]; on a record with an
    author and a year that [str] renders it gives a string. *)
Theorem format_citation_unknown_style (r : record) (style : string) :
  ~ In style supported_styles ->
  format_citation r style = format_citation r "APA 7th"
  /\ format_citation r style = _format_apa r
  /\ (authors r = [] -> format_citation r style = Raise IndexError)
  /\ (authors r <> [] -> is_ok (py_str (year r)) = true ->
      exists s, format_citation r style = Ok s).
Proof.
  intros H. unfold format_citation.
  rewrite (dict_get_default formatters style _format_apa H).
  repeat split.
  - intros E. unfold _format_apa. now rewrite E.
  - intros Hne Hy. unfold _format_apa.
    destruct (authors r) as [| a l]; [contradiction |].
    destruct (author_str_nonempty a l) as [Hapa _].
    destruct (apa_author_str (a :: l)) as [s |]; [| discriminate].
    destruct (py_str (year r)) as [ys |]; [| discriminate].
    simpl. eauto.
Qed.

Lemma format_citation_unknown_style_witness :
  ~ In "Vancouver" supported_styles
  /\ format_citation
       {| authors := []; year := VInt 2023; title := "Test Article";
          journal := ""; volume := ""; issue := ""; pages := ""; doi := "" |}
       "Vancouver"
     = Raise IndexError.
Proof.
  assert (H : ~ In "Vancouver" supported_styles).
  { simpl. intros [E | [E | [E | [E | [E | []]]]]]; discriminate E. }
  split; [exact H |].
  exact (proj1 (proj2 (proj2 (format_citation_unknown_style
                                {| authors := []; year := VInt 2023;
                                   title := "Test Article"; journal := "";
                                   volume := ""; issue := ""; pages := "";
                                   doi := "" |} "Vancouver" H))) eq_refl).
Defined.

(** C7. The APA authors clause is the single name for one author, the two
    names around [" & "] for two authors, the first name and [" et al."]
    for three authors or more, and it opens the formatted citation, before
    the year between parentheses. *)
Theorem apa_author_clause :
  (forall a, apa_author_str [a] = Ok a)
  /\ (forall a b, apa_author_str [a; b] = Ok (a ++ " & " ++ b))
  /\ (forall a b c rest, apa_author_str (a :: b :: c :: rest) = Ok (a ++ " et al."))
  /\ apa_author_str ["Smith, J."; "Jones, K."; "Lee, R."] = Ok "Smith, J. et al."
  /\ (forall r, exists rest,
        _format_apa r
        = clause <- apa_author_str (authors r) ;;
          year_str <- py_str (year r) ;;
          Ok (clause ++ " (" ++ year_str ++ "). " ++ title r ++ "." ++ rest)).
Proof.
  repeat split.
  intros r.
  exists ((if str_truthy (journal r) then
             " " ++ journal r
             ++ (if str_truthy (volume r) then
                   ", " ++ volume r
                   ++ add_if (str_truthy (issue r)) ("(" ++ issue r ++ ")") ""
                 else "")
             ++ add_if (str_truthy (pages r)) (", " ++ pages r) ""
           else "")
          ++ add_if (str_truthy (doi r)) (". https://doi.org/" ++ doi r) "").
  unfold _format_apa.
  destruct (apa_author_str (authors r)) as [clause |]; simpl; [| reflexivity].
  destruct (py_str (year r)) as [year_str |]; simpl; [| reflexivity].
  f_equal.
  destruct (str_truthy (doi r)), (str_truthy (journal r)), (str_truthy (pages r)),
    (str_truthy (volume r)), (str_truthy (issue r));
    str_norm; reflexivity.
Qed.

Lemma str_truthy_empty (s : string) : s = "" -> str_truthy s = false.
Proof. now intros ->. Qed.

(** C9. Without a journal the MLA output is the authors clause, a period
    and a space, the title and a period between double quotes, and a final
    period: no year, volume, issue or pages reaches the output. *)
Theorem format_mla_without_journal (r : record) :
  journal r = "" ->
  _format_mla r =
    clause <- mla_author_str (authors r) ;;
    Ok (clause ++ ". " ++ dq ++ title r ++ "." ++ dq ++ ".").
Proof.
  intros Hj. unfold _format_mla.
  rewrite (str_truthy_empty _ Hj).
  destruct (mla_author_str (authors r)) as [clause |]; simpl; [| reflexivity].
  f_equal. str_norm. reflexivity.
Qed.

Lemma format_mla_without_journal_witness :
  _format_mla {| authors := ["Smith, J."]; year := VInt 2023; title := "Test Article";
                 journal := ""; volume := "10"; issue := "2"; pages := "100-110";
                 doi := "" |}
  = Ok ("Smith, J.. " ++ dq ++ "Test Article." ++ dq ++ ".").
Proof.
  exact (format_mla_without_journal
           {| authors := ["Smith, J."]; year := VInt 2023; title := "Test Article";
              journal := ""; volume := "10"; issue := "2"; pages := "100-110";
              doi := "" |} eq_refl).
Defined.

(** ** The validator *)

Lemma parse_digits_empty (acc : Z) : parse_digits "" acc false = None.
Proof. reflexivity. Qed.

Lemma py_int_truthy (v : value) (y : Z) :
  py_int v = Some y -> y <> 0%Z -> truthy v = true.
Proof.
  destruct v as [z | s]; simpl.
  - intros [= ->] Hy. now apply negb_true_iff, Z.eqb_neq.
  - destruct s; [discriminate | reflexivity].
Qed.

(** [int] skips the whitespace around a number, though not the separators
    U+001C to U+001F that [str.strip] removes; underscores stand between
    digits only. A literal of more than 4300 digits is refused, and so is
    the rendering of a number of more than 4300 digits. *)
Example int_of_str_examples :
  int_of_str (String (ascii_of_nat 160) "+2020" ++ String (ascii_of_nat 133) "")
  = Some 2020%Z
  /\ int_of_str (String (ascii_of_nat 28) "2020") = None
  /\ int_of_str "2_020" = Some 2020%Z
  /\ int_of_str "20_" = None
  /\ py_str (VInt 2023) = Ok "2023".
Proof. repeat split. Qed.

Lemma str_of_Z_limit (z : Z) :
  (10 ^ Z.of_nat int_max_str_digits <= Z.abs z)%Z -> str_of_Z z = Raise ValueError.
Proof.
  unfold str_of_Z. generalize (10 ^ Z.of_nat int_max_str_digits)%Z. intros b H.
  destruct (Z.ltb_spec (Z.abs z) b); [lia | reflexivity].
Qed.

Lemma parse_literal_limit (r : string) :
  int_max_str_digits < count_digits r -> parse_literal r = None.
Proof.
  intros H. unfold parse_literal. apply Nat.ltb_lt in H. now rewrite H.
Qed.

(** C2, as the code has it. With authors and a title present and a year
    that [int] accepts, [validate_citation] accepts the record exactly when
    the year lies in [1500, current_year + 1]; the band [1900, 2030] is that
    of [validate_year], which judges a year alone. *)
Theorem validate_citation_year_band
        (current_year : Z) (c : citation)
        (a : list string) (t : string) (v : value) (y : Z) :
  c_authors c = Some a -> a <> [] ->
  c_title c = Some t -> t <> "" ->
  c_year c = Some v -> py_int v = Some y ->
  validate_citation current_year c
  = ((1500 <=? y)%Z && (y <=? current_year + 1)%Z)
  /\ validate_year v = ((1900 <=? y)%Z && (y <=? 2030)%Z).
Proof.
  intros Ha Hne Ht Htne Hy Hint.
  unfold validate_citation, validate_year. rewrite Ha, Ht, Hy, Hint. simpl.
  destruct a as [| a0 a']; [contradiction |].
  destruct t as [| t0 t']; [contradiction |]. simpl.
  split; [| reflexivity].
  destruct (Z.eq_dec y 0) as [-> | Hy0].
  - destruct (truthy v); reflexivity.
  - rewrite (py_int_truthy v y Hint Hy0). simpl.
    destruct (Z.ltb_spec y 1500), (Z.leb_spec 1500 y); try lia;
      destruct (Z.ltb_spec (current_year + 1) y), (Z.leb_spec y (current_year + 1));
      try lia; reflexivity.
Qed.

Lemma validate_citation_year_band_witness :
  validate_citation 2029 (citation_of ["Smith, J."] (VStr "2023") "Test Article") = true
  /\ validate_year (VStr "2023") = true.
Proof.
  exact (validate_citation_year_band 2029
           (citation_of ["Smith, J."] (VStr "2023") "Test Article")
           ["Smith, J."] "Test Article" (VStr "2023") 2023
           eq_refl ltac:(discriminate) eq_refl ltac:(discriminate) eq_refl eq_refl).
Defined.

(** C2, the counterexample. The year 1800 lies outside [1900, 2030], all
    required fields are present, and the record is accepted. *)
Lemma validate_citation_accepts_1800 :
  py_int (VInt 1800) = Some 1800%Z
  /\ (1800 < 1900)%Z
  /\ validate_citation 2029 (citation_of ["Smith, J."] (VInt 1800) "Test Article") = true.
Proof.
  repeat split.
Qed.

(** ** The bibliography *)

Lemma bibliography_loop_format_each (style : string) (citations : list citation) :
  forall bibliography,
    bibliography_loop citations style bibliography
    = others <- format_each style citations ;; Ok (bibliography ++ others)%list.
Proof.
  induction citations as [| c rest IH]; intros acc; simpl.
  - now rewrite app_nil_r.
  - destruct (format_citation (record_of c) style) as [f |]; simpl; [| reflexivity].
    rewrite IH.
    destruct (format_each style rest) as [fs |]; simpl; [| reflexivity].
    now rewrite <- app_assoc.
Qed.

Lemma ltb_false_le (x y : string) : String.ltb y x = false -> str_le x y.
Proof.
  unfold String.ltb, str_le, String.leb.
  rewrite (String.compare_antisym y x).
  destruct (String.compare x y); simpl; intros H; try reflexivity; discriminate.
Qed.

Lemma ltb_true_le (x y : string) : String.ltb y x = true -> str_le y x.
Proof.
  unfold String.ltb, str_le, String.leb.
  destruct (String.compare y x); intros H; try reflexivity; discriminate.
Qed.

Lemma insert_perm (x : string) (l : list string) : Permutation (x :: l) (insert x l).
Proof.
  induction l as [| y l IH]; simpl; [apply Permutation_refl |].
  destruct (String.ltb y x).
  - eapply perm_trans; [apply perm_swap | now apply perm_skip].
  - apply Permutation_refl.
Qed.

Lemma sort_perm (l : list string) : Permutation l (sort l).
Proof.
  induction l as [| x l IH]; simpl; [constructor |].
  eapply perm_trans; [apply perm_skip, IH | apply insert_perm].
Qed.

Lemma insert_hdrel (a x : string) (l : list string) :
  str_le a x -> HdRel str_le a l -> HdRel str_le a (insert x l).
Proof.
  intros Hax Hal. destruct l as [| y l]; simpl; [now constructor |].
  destruct (String.ltb y x); constructor; [now inversion Hal | exact Hax].
Qed.

Lemma insert_sorted (x : string) (l : list string) :
  Sorted str_le l -> Sorted str_le (insert x l).
Proof.
  induction l as [| y l IH]; simpl; intros Hs.
  - repeat constructor.
  - inversion Hs as [| ? ? Hl Hy]; subst.
    destruct (String.ltb y x) eqn:E.
    + constructor; [now apply IH |].
      apply insert_hdrel; [now apply ltb_true_le | exact Hy].
    + constructor; [exact Hs |]. constructor. now apply ltb_false_le.
Qed.

Lemma sort_sorted (l : list string) : Sorted str_le (sort l).
Proof.
  induction l as [| x l IH]; simpl; [constructor | now apply insert_sorted].
Qed.


(** ** The IEEE authors clause *)

Lemma split_go_tokens (s : string) :
  forall tok, Forall (fun t => str_truthy t = true) (split_go s tok).
Proof.
  induction s as [| c s IH]; intros tok; simpl.
  - destruct (str_truthy tok) eqn:E; repeat constructor; exact E.
  - destruct (is_space c); [| apply IH].
    destruct (str_truthy tok) eqn:E; [constructor; [exact E |] |]; apply IH.
Qed.

Lemma removelast_Forall {A : Type} (P : A -> Prop) (l : list A) :
  Forall P l -> Forall P (removelast l).
Proof.
  induction 1 as [| x l Hx Hl IH]; simpl; [constructor |].
  destruct l; [constructor | now constructor].
Qed.

Lemma first_chars_tokens (parts : list string) :
  Forall (fun t => str_truthy t = true) parts ->
  first_chars parts = Ok (map first_letter parts).
Proof.
  induction 1 as [| p parts Hp _ IH]; simpl; [reflexivity |].
  destruct p as [| c p]; [discriminate |]. simpl. now rewrite IH.
Qed.

Lemma index_last_last {A : Type} (l : list A) (d : A) :
  l <> [] -> index_last l = Ok (last l d).
Proof.
  intros Hne. unfold index_last.
  rewrite (app_removelast_last d Hne) at 1.
  now rewrite rev_app_distr.
Qed.

Lemma ieee_format_author_spec (author : string) :
  ieee_format_author author = Ok (spec_ieee_name author).
Proof.
  unfold ieee_format_author, spec_ieee_name.
  destruct (Nat.leb 2 (List.length (split author))) eqn:E; [| reflexivity].
  rewrite first_chars_tokens
    by (apply removelast_Forall, split_go_tokens).
  simpl.
  rewrite (index_last_last (split author) "")
    by (destruct (split author); [discriminate | discriminate]).
  simpl. f_equal. str_norm. reflexivity.
Qed.

Lemma ieee_loop_spec (authors : list string) :
  forall formatted,
    ieee_loop authors formatted
    = Ok (formatted ++ map spec_ieee_name authors)%list.
Proof.
  induction authors as [| a rest IH]; intros acc; simpl.
  - now rewrite app_nil_r.
  - rewrite ieee_format_author_spec. simpl. rewrite IH.
    now rewrite <- app_assoc.
Qed.

Lemma join_initials (t : string) (tokens : list string) :
  join ". " (map first_letter (t :: tokens)) ++ "."
  = join " " (map (fun x => first_letter x ++ ".") (t :: tokens)).
Proof.
  revert t. induction tokens as [| u tokens IH]; intros t.
  - reflexivity.
  - change (join ". " (map first_letter (t :: u :: tokens)))
      with (first_letter t ++ ". " ++ join ". " (map first_letter (u :: tokens))).
    change (join " " (map (fun x => first_letter x ++ ".") (t :: u :: tokens)))
      with ((first_letter t ++ ".") ++ " "
            ++ join " " (map (fun x => first_letter x ++ ".") (u :: tokens))).
    rewrite <- IH. str_norm. reflexivity.
Qed.

Lemma ieee_author_str_spec (authors : list string) :
  ieee_author_str authors = Ok (spec_ieee_authors_clause authors).
Proof.
  unfold ieee_author_str, spec_ieee_authors_clause.
  rewrite ieee_loop_spec. simpl.
  rewrite length_map.
  destruct (Nat.ltb 3 (List.length authors)) eqn:E; [| reflexivity].
  destruct authors as [| a rest]; [discriminate | reflexivity].
Qed.

Lemma format_ieee_without_journal (r : record) :
  journal r = "" ->
  format_citation r "IEEE"
  = Ok (spec_ieee_authors_clause (authors r)
        ++ ", " ++ dq ++ title r ++ "," ++ dq ++ ".").
Proof.
  intros Hj. change (format_citation r "IEEE") with (_format_ieee r).
  unfold _format_ieee. rewrite ieee_author_str_spec, Hj. cbn [bind str_truthy].
  f_equal. str_norm. reflexivity.
Qed.

Lemma format_ieee_with_journal (r : record) :
  journal r <> "" ->
  exists block,
    format_citation r "IEEE"
    = year_str <- py_str (year r) ;;
      Ok (spec_ieee_authors_clause (authors r)
          ++ ", " ++ dq ++ title r ++ "," ++ dq
          ++ " " ++ journal r ++ block ++ ", " ++ year_str ++ ".").
Proof.
  intros Hj. change (format_citation r "IEEE") with (_format_ieee r).
  exists (add_if (str_truthy (volume r)) (", vol. " ++ volume r) ""
          ++ add_if (str_truthy (issue r)) (", no. " ++ issue r) ""
          ++ add_if (str_truthy (pages r)) (", pp. " ++ pages r) "").
  unfold _format_ieee. rewrite ieee_author_str_spec.
  destruct (journal r) as [| c j] eqn:E; [contradiction |].
  cbn [bind str_truthy].
  destruct (py_str (year r)) as [year_str |]; [| reflexivity].
  cbn [bind]. f_equal.
  destruct (str_truthy (volume r)), (str_truthy (issue r)), (str_truthy (pages r));
    str_norm; reflexivity.
Qed.

(** C8. The IEEE formatter turns every name of two or more
    whitespace-separated tokens into the first characters of all tokens but
    the last, joined by [". "] and closed by a period (so that every
    initial is followed by a period), a space and the last token; it leaves
    other names as they are; with more than three authors the clause is
    the first transformed name and [" et al."], otherwise the transformed
    names joined by [", "]. The formatter never fails on a name, and the
    clause opens the IEEE citation: without a journal the citation is the
    clause, the title between double quotes and a period; with a journal
    the journal block and the year follow the title. *)
Theorem ieee_author_clause :
  (forall authors, ieee_author_str authors = Ok (spec_ieee_authors_clause authors))
  /\ (forall author, ieee_format_author author = Ok (spec_ieee_name author))
  /\ (forall t tokens,
        join ". " (map first_letter (t :: tokens)) ++ "."
        = join " " (map (fun x => first_letter x ++ ".") (t :: tokens)))
  /\ spec_ieee_name "John Ronald Tolkien" = "J. R. Tolkien"
  /\ spec_ieee_authors_clause ["Ada Lovelace"; "Alan M Turing"; "Plato"]
     = "A. Lovelace, A. M. Turing, Plato"
  /\ spec_ieee_authors_clause ["Ada Lovelace"; "Alan M Turing"; "Plato"; "Kurt Godel"]
     = "A. Lovelace et al."
  /\ (forall r, format_citation r "IEEE" = _format_ieee r)
  /\ (forall r,
        journal r = "" ->
        format_citation r "IEEE"
        = Ok (spec_ieee_authors_clause (authors r)
              ++ ", " ++ dq ++ title r ++ "," ++ dq ++ "."))
  /\ (forall r,
        journal r <> "" ->
        exists block,
          format_citation r "IEEE"
          = year_str <- py_str (year r) ;;
            Ok (spec_ieee_authors_clause (authors r)
                ++ ", " ++ dq ++ title r ++ "," ++ dq
                ++ " " ++ journal r ++ block ++ ", " ++ year_str ++ ".")).
Proof.
  split; [exact ieee_author_str_spec |].
  split; [exact ieee_format_author_spec |].
  split; [exact join_initials |].
  split; [reflexivity |].
  split; [reflexivity |].
  split; [reflexivity |].
  split; [intros r; reflexivity |].
  split; [exact format_ieee_without_journal |].
  exact format_ieee_with_journal.
Qed.

(** ** The assembled bibliography *)

Lemma format_citation_total (r : record) (style : string) :
  authors r <> [] -> is_ok (py_str (year r)) = true ->
  exists s, format_citation r style = Ok s.
Proof.
  intros Hne Hy. unfold format_citation. simpl.
  destruct (authors r) as [| a l] eqn:E; [contradiction |].
  destruct (author_str_nonempty a l) as (Hapa & Hmla & Hhar).
  destruct (py_str (year r)) as [ys |] eqn:Ey; [| discriminate].
  repeat match goal with
         | |- context [if ?b then _ else _] => destruct b
         end;
    unfold _format_apa, _format_mla, _format_chicago, _format_ieee, _format_harvard;
    rewrite ?E, ?Ey, ?ieee_author_str_spec.
  all: try (destruct (apa_author_str (a :: l)); [| discriminate]).
  all: try (destruct (mla_author_str (a :: l)); [| discriminate]).
  all: try (destruct (harvard_author_str (a :: l)); [| discriminate]).
  all: simpl; rewrite ?Ey; simpl;
    repeat match goal with
           | |- context [if ?b then _ else _] => destruct b
           end;
    simpl; rewrite ?Ey; simpl; eauto.
Qed.

Lemma format_each_total (style : string) (citations : list citation) :
  Forall formattable citations ->
  exists formatted, format_each style citations = Ok formatted.
Proof.
  induction 1 as [| c rest [Hc Hy] _ IH]; simpl; [eauto |].
  destruct IH as [fs ->].
  destruct (format_citation_total (record_of c) style Hc Hy) as [s ->].
  simpl. eauto.
Qed.

(** C6. The bibliography is the formatted strings of the records, sorted
    by the order of [str] and joined by a blank line; the sorted list is a
    rearrangement of the formatted strings in which each entry is below the
    next; an empty list of records gives the empty string; and formatting
    succeeds whenever every record has an author and a year that [str]
    renders. *)
Theorem generate_bibliography_sorted_joined (style : string) :
  generate_bibliography [] style = Ok ""
  /\ (forall citations,
        generate_bibliography citations style
        = formatted <- format_each style citations ;;
          Ok (join blank_line (sort formatted)))
  /\ (forall formatted,
        Permutation formatted (sort formatted) /\ Sorted str_le (sort formatted))
  /\ (forall citations,
        Forall formattable citations ->
        exists formatted, format_each style citations = Ok formatted).
Proof.
  split; [reflexivity |].
  split.
  - intros citations. unfold generate_bibliography.
    rewrite bibliography_loop_format_each.
    destruct (format_each style citations); reflexivity.
  - split.
    + intros formatted. split; [apply sort_perm | apply sort_sorted].
    + apply format_each_total.
Qed.

(** ** The matcher and the scanner *)

Lemma str_all_impl (p q : ascii -> bool) (w : string) :
  (forall c, p c = true -> q c = true) ->
  str_all p w = true -> str_all q w = true.
Proof.
  intros Hpq. induction w as [| c w IH]; simpl; [reflexivity |].
  intros H. apply andb_true_iff in H as [Hc Hw].
  now rewrite (Hpq c Hc), IH.
Qed.

Lemma set_differs (p : ascii -> bool) (c0 c : ascii) :
  negb (p c0) = true -> p c = true -> differs c0 c = true.
Proof.
  intros H0 Hc. unfold differs.
  destruct (Ascii.eqb_spec c c0) as [-> | _]; [| reflexivity].
  rewrite Hc in H0. discriminate.
Qed.

Section Sound.
Variable R : Type.

(** What a successful run of [star] has read satisfies the set. *)
Lemma star_sound (p : ascii -> bool) (s : string) (k : string -> option R) (res : R) :
  star p s k = Some res ->
  exists w s1, s = w ++ s1 /\ str_all p w = true /\ k s1 = Some res.
Proof.
  induction s as [| c s IH]; simpl; intros H.
  - exists "", "". auto.
  - destruct (p c) eqn:Hc.
    + destruct (star p s k) as [r |] eqn:E.
      * injection H as ->.
        destruct (IH eq_refl) as (w & s1 & -> & Hw & Hk).
        exists (String c w), s1. simpl. rewrite Hc, Hw. auto.
      * exists "", (String c s). auto.
    + exists "", (String c s). auto.
Qed.

Lemma count_sound (n : nat) (p : ascii -> bool) :
  forall (s : string) (k : string -> option R) (res : R),
    count n p s k = Some res ->
    exists w s1, s = w ++ s1 /\ str_all p w = true /\ k s1 = Some res.
Proof.
  induction n as [| n IH]; simpl; intros s k res H.
  - exists "", s. auto.
  - destruct s as [| c s]; [discriminate |].
    destruct (p c) eqn:Hc; [| discriminate].
    destruct (IH s k res H) as (w & s1 & -> & Hw & Hk).
    exists (String c w), s1. simpl. rewrite Hc, Hw. auto.
Qed.

(** A successful run of [exec] reads a prefix in which [c0] does not
    occur, when no set of the pattern contains [c0]. *)
Lemma exec_avoids (c0 : ascii) (r : regex) :
  avoids c0 r = true ->
  forall (s : string) (caps : list string)
         (k : string -> list string -> option R) (res : R),
    exec r s caps k = Some res ->
    exists w s1 caps1,
      s = w ++ s1 /\ str_all (differs c0) w = true /\ k s1 caps1 = Some res.
Proof.
  induction r as [p | r1 IH1 r2 IH2 | r1 IH1 | p | p | p | n p];
    simpl; intros Hav s caps k res H.
  - destruct s as [| c s]; [discriminate |].
    destruct (p c) eqn:Hc; [| discriminate].
    exists (String c ""), s, caps. simpl.
    rewrite (set_differs p c0 c Hav Hc). auto.
  - apply andb_true_iff in Hav as [Hav1 Hav2].
    destruct (IH1 Hav1 _ _ _ _ H) as (w1 & s1 & caps1 & -> & Hw1 & H1).
    destruct (IH2 Hav2 _ _ _ _ H1) as (w2 & s2 & caps2 & -> & Hw2 & H2).
    exists (w1 ++ w2), s2, caps2.
    rewrite append_assoc, str_all_append, Hw1, Hw2. auto.
  - destruct (IH1 Hav _ _ _ _ H) as (w1 & s1 & caps1 & -> & Hw1 & H1).
    eauto 6.
  - destruct s as [| c s]; [discriminate |].
    destruct (p c) eqn:Hc; [| discriminate].
    destruct (star_sound _ _ _ _ H) as (w & s1 & -> & Hw & Hk).
    exists (String c w), s1, caps. simpl.
    rewrite (set_differs p c0 c Hav Hc).
    rewrite (str_all_impl p (differs c0) w (fun x => set_differs p c0 x Hav) Hw). auto.
  - destruct (star_sound _ _ _ _ H) as (w & s1 & -> & Hw & Hk).
    exists w, s1, caps.
    rewrite (str_all_impl p (differs c0) w (fun x => set_differs p c0 x Hav) Hw). auto.
  - destruct s as [| c s]; [exists "", "", caps; auto |].
    destruct (p c) eqn:Hc; [| exists "", (String c s), caps; auto].
    destruct (k s caps) as [r |] eqn:E.
    + exists (String c ""), s, caps. simpl.
      rewrite (set_differs p c0 c Hav Hc). injection H as <-. auto.
    + exists "", (String c s), caps. auto.
  - destruct (count_sound _ _ _ _ _ H) as (w & s1 & -> & Hw & Hk).
    exists w, s1, caps.
    rewrite (str_all_impl p (differs c0) w (fun x => set_differs p c0 x Hav) Hw). auto.
Qed.
End Sound.

Lemma match_at_interior (c0 : ascii) (p0 : ascii -> bool) (tail : regex) :
  avoids c0 tail = true -> interior_free c0 (Cat (Chars p0) tail).
Proof.
  intros Hav s n caps. unfold match_at. cbn [exec].
  destruct s as [| a s]; [discriminate |].
  destruct (p0 a); [| discriminate].
  intros H.
  destruct (exec_avoids _ c0 tail Hav _ _ _ _ H) as (w & s1 & caps1 & -> & Hw & Hk).
  exists a, w, s1. injection Hk as <- _.
  repeat split; [| exact Hw].
  rewrite ?length_append. destruct (String.length s1); lia.
Qed.

Lemma front_free_append (c0 : ascii) (w s1 : string) :
  str_all (differs c0) w = true -> front_free c0 (String.length w) (w ++ s1) = true.
Proof.
  induction w as [| c w IH]; simpl; [reflexivity |].
  intros H. apply andb_true_iff in H as [Hc Hw]. now rewrite Hc, IH.
Qed.

(** The scanner lists a match that starts at [c0], wherever the text has
    it, when no earlier match can run over a [c0]. *)
Lemma scan_finds (c0 : ascii) (r : regex) (rest : string) (n : nat) (caps : list string) :
  interior_free c0 r ->
  match_at r (String c0 rest) = Some (n, caps) ->
  forall pre skip pos,
    front_free c0 skip (pre ++ String c0 rest) = true ->
    In (pos + String.length pre, caps) (scan r (pre ++ String c0 rest) skip pos).
Proof.
  intros Hfree Hm. induction pre as [| a pre IH]; intros skip pos Hskip.
  - destruct skip as [| skip].
    + simpl. rewrite Hm. left. f_equal. lia.
    + simpl in Hskip. unfold differs in Hskip.
      rewrite Ascii.eqb_refl in Hskip. discriminate.
  - replace (pos + String.length (String a pre)) with (S pos + String.length pre)
      by (simpl; lia).
    destruct skip as [| skip].
    + change (String a pre ++ String c0 rest) with (String a (pre ++ String c0 rest)).
      cbn [scan].
      destruct (match_at r (String a (pre ++ String c0 rest)))
        as [[m caps'] |] eqn:E.
      * right. apply (IH _ (S pos)).
        destruct (Hfree _ _ _ E) as (a' & w & s1 & Hs & -> & Hw).
        injection Hs as _ ->. simpl Nat.pred.
        now apply front_free_append.
      * apply (IH 0 (S pos)). reflexivity.
    + simpl in Hskip. apply andb_true_iff in Hskip as [_ Hskip].
      exact (IH skip (S pos) Hskip).
Qed.

(** The scanner lists matches at strictly increasing positions. *)
Lemma scan_from (r : regex) (s : string) :
  forall skip pos, Forall (fun o => pos <= fst o) (scan r s skip pos).
Proof.
  induction s as [| a s IH]; intros skip pos.
  - destruct skip; simpl; [| constructor].
    destruct (match_at r "") as [[n caps] |]; repeat constructor.
  - assert (Hnext : forall k, Forall (fun o => pos <= fst o) (scan r s k (S pos))).
    { intros k. eapply Forall_impl; [| apply IH]. simpl. intros o Ho. lia. }
    destruct skip; cbn [scan]; [| apply Hnext].
    destruct (match_at r (String a s)) as [[n caps] |]; [| apply Hnext].
    constructor; [simpl; lia | apply Hnext].
Qed.

Lemma scan_increasing (r : regex) (s : string) :
  forall skip pos, StronglySorted lt (map fst (scan r s skip pos)).
Proof.
  induction s as [| a s IH]; intros skip pos.
  - destruct skip; simpl; [| constructor].
    destruct (match_at r "") as [[n caps] |]; repeat constructor.
  - destruct skip; cbn [scan]; [| apply IH].
    destruct (match_at r (String a s)) as [[n caps] |]; [| apply IH].
    simpl. constructor; [apply IH |].
    apply Forall_map. eapply Forall_impl; [| apply (scan_from r s (Nat.pred n) (S pos))].
    simpl. intros o Ho. lia.
Qed.

(** Every listed position carries a match of the pattern. *)
Lemma scan_matches (r : regex) (s : string) :
  forall skip pos p caps,
    In (p, caps) (scan r s skip pos) ->
    exists n, pos <= p /\ match_at r (drop (p - pos) s) = Some (n, caps).
Proof.
  induction s as [| a s IH]; intros skip pos p caps Hin.
  - destruct skip; simpl in Hin; [| contradiction].
    destruct (match_at r "") as [[n caps'] |] eqn:E; [| contradiction].
    destruct Hin as [[= <- <-] | []].
    exists n. rewrite Nat.sub_diag. auto.
  - assert (Hnext : forall k, In (p, caps) (scan r s k (S pos)) ->
                      exists n, pos <= p
                                /\ match_at r (drop (p - pos) (String a s)) = Some (n, caps)).
    { intros k Hk. destruct (IH _ _ _ _ Hk) as (n & Hle & Hm).
      exists n. split; [lia |].
      replace (p - pos) with (S (p - S pos)) by lia. exact Hm. }
    destruct skip; cbn [scan] in Hin; [| now apply (Hnext skip)].
    destruct (match_at r (String a s)) as [[n caps'] |] eqn:E; [| now apply (Hnext 0)].
    destruct Hin as [[= <- <-] | Hin]; [| now apply (Hnext (Nat.pred n))].
    exists n. rewrite Nat.sub_diag. auto.
Qed.

Lemma append_each_map {A B : Type} (f : A -> B) (matches : list A) :
  forall citations,
    append_each f matches citations = (citations ++ map f matches)%list.
Proof.
  unfold append_each.
  induction matches as [| m matches IH]; intros acc; simpl.
  - now rewrite app_nil_r.
  - rewrite IH. now rewrite <- app_assoc.
Qed.

Lemma extract_citations_unfold (text : string) :
  extract_citations text
  = (map in_text_of (findall pattern1 text)
     ++ map numbered_of (findall pattern2 text))%list.
Proof.
  unfold extract_citations. now rewrite !append_each_map.
Qed.

(** ** Matches of the two patterns *)

Lemma take_prefix (a b : string) :
  take (String.length (a ++ b) - String.length b) (a ++ b) = a.
Proof.
  rewrite length_append.
  replace (String.length a + String.length b - String.length b)
    with (String.length a) by lia.
  apply take_append.
Qed.

Lemma digit_classes (c : ascii) :
  is_digit c = true ->
  author_char c = false /\ is_space c = false /\ is_char "," c = false.
Proof.
  destruct c as [[] [] [] [] [] [] [] []]; vm_compute; intros H;
    first [discriminate H | repeat split].
Qed.

Lemma star_greedy {R : Type} (p : ascii -> bool) (w rest : string)
      (k : string -> option R) (res : R) :
  str_all p w = true -> stops p rest -> k rest = Some res ->
  star p (w ++ rest) k = Some res.
Proof.
  intros Hw Hstop Hk. induction w as [| c w IH]; simpl.
  - destruct rest as [| c rest]; simpl; [exact Hk |].
    simpl in Hstop. now rewrite Hstop.
  - simpl in Hw. apply andb_true_iff in Hw as [Hc Hw].
    now rewrite Hc, (IH Hw).
Qed.

Lemma count_exact {R : Type} (p : ascii -> bool) (w rest : string)
      (k : string -> option R) :
  str_all p w = true -> count (String.length w) p (w ++ rest) k = k rest.
Proof.
  induction w as [| c w IH]; simpl; [reflexivity |].
  intros H. apply andb_true_iff in H as [Hc Hw]. now rewrite Hc, IH.
Qed.

Section ExecSteps.
Context {R : Type}.
Variables (s : string) (caps : list string)
          (k : string -> list string -> option R).

Lemma exec_cat (r1 r2 : regex) :
  exec (Cat r1 r2) s caps k
  = exec r1 s caps (fun s1 caps1 => exec r2 s1 caps1 k).
Proof. reflexivity. Qed.

Lemma exec_group (r : regex) :
  exec (Group r) s caps k
  = exec r s caps
      (fun s1 caps1 =>
         k s1 (caps1 ++ [take (String.length s - String.length s1) s])%list).
Proof. reflexivity. Qed.

Lemma exec_chars (p : ascii -> bool) (c : ascii) :
  p c = true -> exec (Chars p) (String c s) caps k = k s caps.
Proof. simpl. now intros ->. Qed.

Lemma exec_opt_stops (p : ascii -> bool) :
  stops p s -> exec (Opt p) s caps k = k s caps.
Proof. destruct s as [| c s']; simpl; [reflexivity |]. now intros ->. Qed.

Lemma exec_star_stops (p : ascii -> bool) :
  stops p s -> exec (Star p) s caps k = k s caps.
Proof. destruct s as [| c s']; simpl; [reflexivity |]. now intros ->. Qed.

Lemma exec_plus_greedy (p : ascii -> bool) (c : ascii) (w rest : string) (res : R) :
  p c = true -> str_all p w = true -> stops p rest ->
  k rest caps = Some res ->
  exec (Plus p) (String c (w ++ rest)) caps k = Some res.
Proof.
  intros Hc Hw Hstop Hk. simpl. rewrite Hc.
  now apply star_greedy.
Qed.

Lemma exec_count (p : ascii -> bool) (w rest : string) :
  str_all p w = true ->
  exec (Count (String.length w) p) (w ++ rest) caps k = k rest caps.
Proof. intros Hw. simpl. now rewrite count_exact. Qed.
End ExecSteps.

(** A parenthesised author phrase and year is a match of [pattern1] whose
    first group is the whole phrase. *)
Lemma match_at_in_text (U : ascii) (body y post : string) :
  is_upper U = true ->
  body <> "" -> str_all author_char body = true ->
  String.length y = 4 -> str_all is_digit y = true ->
  exists n,
    match_at pattern1 (String "(" (String U body ++ y ++ String ")" post))
    = Some (n, [String U body; y]).
Proof.
  intros HU Hbody Hclass Hlen Hdigits.
  eexists. unfold match_at.
  set (k := fun (s1 : string) (caps : list string) => Some (_, caps)).
  assert (Hgen : forall res, k post [String U body; y] = Some res ->
                   exec pattern1 (String "(" (String U body ++ y ++ String ")" post)) [] k
                   = Some res).
  { clearbody k. intros res Hk.
    destruct body as [| b body]; [contradiction |].
    simpl in Hclass. apply andb_true_iff in Hclass as [Hb Hclass].
    assert (Hy0 : stops author_char (y ++ String ")" post)
                  /\ stops is_space (y ++ String ")" post)
                  /\ stops (is_char ",") (y ++ String ")" post)).
    { destruct y as [| d y]; [discriminate |].
      simpl in Hdigits. apply andb_true_iff in Hdigits as [Hd _].
      destruct (digit_classes d Hd) as (H1 & H2 & H3). simpl. auto. }
    destruct Hy0 as (Hs1 & Hs2 & Hs3).
    unfold pattern1.
    rewrite exec_cat, exec_chars by reflexivity.
    rewrite exec_cat, exec_group, exec_cat.
    change (String U (String b body) ++ y ++ String ")" post)
      with (String U (String b (body ++ y ++ String ")" post))).
    rewrite exec_chars by exact HU.
    apply exec_plus_greedy; [exact Hb | exact Hclass | exact Hs1 |].
    change (String U (String b (body ++ y ++ String ")" post)))
      with (String U (String b body) ++ (y ++ String ")" post)).
    rewrite take_prefix. cbn [app].
    rewrite exec_cat, exec_opt_stops by exact Hs3.
    rewrite exec_cat, exec_star_stops by exact Hs2.
    rewrite exec_cat, exec_group.
    rewrite <- Hlen at 1.
    rewrite exec_count by exact Hdigits.
    rewrite exec_chars by reflexivity.
    rewrite take_prefix. exact Hk. }
  apply Hgen. unfold k. reflexivity.
Qed.

(** A bracketed run of digits is a match of [pattern2] whose group is the
    run. *)
Lemma match_at_numbered (ds post : string) :
  ds <> "" -> str_all is_digit ds = true ->
  exists n,
    match_at pattern2 (String "[" (ds ++ String "]" post)) = Some (n, [ds]).
Proof.
  intros Hne Hdigits.
  eexists. unfold match_at.
  set (k := fun (s1 : string) (caps : list string) => Some (_, caps)).
  assert (Hgen : forall res, k post [ds] = Some res ->
                   exec pattern2 (String "[" (ds ++ String "]" post)) [] k = Some res).
  { clearbody k. intros res Hk.
    destruct ds as [| d ds]; [contradiction |].
    simpl in Hdigits. apply andb_true_iff in Hdigits as [Hd Hdigits].
    unfold pattern2.
    rewrite exec_cat, exec_chars by reflexivity.
    rewrite exec_cat, exec_group.
    change (String d ds ++ String "]" post) with (String d (ds ++ String "]" post)).
    apply exec_plus_greedy; [exact Hd | exact Hdigits | reflexivity |].
    rewrite exec_chars by reflexivity.
    change (String d (ds ++ String "]" post)) with (String d ds ++ String "]" post).
    rewrite take_prefix. exact Hk. }
  apply Hgen. unfold k. reflexivity.
Qed.

(** ** The extractor *)

Lemma pattern1_interior : interior_free "(" pattern1.
Proof. apply match_at_interior. reflexivity. Qed.

Lemma pattern2_interior : interior_free "[" pattern2.
Proof. apply match_at_interior. reflexivity. Qed.

Lemma finditer_finds (c0 : ascii) (r : regex) (pre rest : string) (n : nat)
      (caps : list string) :
  interior_free c0 r ->
  match_at r (String c0 rest) = Some (n, caps) ->
  In caps (findall r (pre ++ String c0 rest)).
Proof.
  intros Hfree Hm. unfold findall, finditer.
  apply (in_map snd _ (0 + String.length pre, caps)).
  now apply (scan_finds c0 r rest n caps Hfree Hm pre 0 0).
Qed.

(** C3, at the failing input. On the example text of the specification
    the extractor returns one mention only, the numbered one, its number
    the digit string ["4"]: [pattern1] wants the author phrase inside the
    parentheses, and ["(2023)"] has none, so that no in-text mention is
    returned. On the text of the repository's own test, which expects at
    least two citations, it returns nothing. *)
Theorem extract_citations_example :
  extract_citations spec_example_text = [Numbered (VStr "4")]
  /\ ~ (exists a y, In (InText a y) (extract_citations spec_example_text))
  /\ extract_citations test_extract_text = [].
Proof.
  split; [vm_compute; reflexivity |].
  split; [| vm_compute; reflexivity].
  intros (a & y & H). vm_compute in H. destruct H as [H | []]. discriminate H.
Qed.

Lemma match_at_head (p0 : ascii -> bool) (tail : regex) (s : string)
      (n : nat) (caps : list string) :
  match_at (Cat (Chars p0) tail) s = Some (n, caps) ->
  exists a rest, s = String a rest /\ p0 a = true.
Proof.
  unfold match_at. cbn [exec].
  destruct s as [| a s]; [discriminate |].
  destruct (p0 a) eqn:E; [eauto | discriminate].
Qed.

(** A match that starts at [c0], at whatever position of the text, is
    listed at that position. *)
Lemma finditer_lists (c0 : ascii) (r : regex) (text : string) (p n : nat)
      (caps : list string) (rest : string) :
  interior_free c0 r ->
  drop p text = String c0 rest ->
  match_at r (drop p text) = Some (n, caps) ->
  In (p, caps) (finditer r text).
Proof.
  intros Hfree E Hm. rewrite E in Hm.
  pose proof (scan_finds c0 r rest n caps Hfree Hm (take p text) 0 0 eq_refl) as H.
  rewrite <- E, take_drop, (length_take_drop p text c0 rest E) in H.
  exact H.
Qed.

Lemma finditer_pattern1_complete (text : string) (p n : nat) (caps : list string) :
  match_at pattern1 (drop p text) = Some (n, caps) ->
  In (p, caps) (finditer pattern1 text)
  /\ In (in_text_of caps) (extract_citations text).
Proof.
  intros Hm.
  destruct (match_at_head _ _ _ _ _ Hm) as (a & rest & E & Ha).
  apply Ascii.eqb_eq in Ha. subst a.
  pose proof (finditer_lists "(" pattern1 text p n caps rest pattern1_interior E Hm)
    as Hin.
  split; [exact Hin |].
  rewrite extract_citations_unfold. apply in_or_app. left.
  apply in_map. unfold findall. exact (in_map snd _ (p, caps) Hin).
Qed.

Lemma finditer_pattern2_complete (text : string) (p n : nat) (caps : list string) :
  match_at pattern2 (drop p text) = Some (n, caps) ->
  In (p, caps) (finditer pattern2 text)
  /\ In (numbered_of caps) (extract_citations text).
Proof.
  intros Hm.
  destruct (match_at_head _ _ _ _ _ Hm) as (a & rest & E & Ha).
  apply Ascii.eqb_eq in Ha. subst a.
  pose proof (finditer_lists "[" pattern2 text p n caps rest pattern2_interior E Hm)
    as Hin.
  split; [exact Hin |].
  rewrite extract_citations_unfold. apply in_or_app. right.
  apply in_map. unfold findall. exact (in_map snd _ (p, caps) Hin).
Qed.

(** C10. The extractor returns the in-text mentions of the text, one for
    each match of [pattern1], then its numbered mentions, one for each match
    of [pattern2]; within each kind the matches stand at strictly increasing
    positions of the text, each listed position carries a match, and every
    position of the text that carries a match is listed, its mention among
    those returned. *)
Theorem extract_citations_order (text : string) :
  extract_citations text
  = (map (fun o => in_text_of (snd o)) (finditer pattern1 text)
     ++ map (fun o => numbered_of (snd o)) (finditer pattern2 text))%list
  /\ StronglySorted lt (map fst (finditer pattern1 text))
  /\ StronglySorted lt (map fst (finditer pattern2 text))
  /\ Forall (fun o => exists n,
                match_at pattern1 (drop (fst o) text) = Some (n, snd o))
            (finditer pattern1 text)
  /\ Forall (fun o => exists n,
                match_at pattern2 (drop (fst o) text) = Some (n, snd o))
            (finditer pattern2 text)
  /\ (forall p n caps,
        match_at pattern1 (drop p text) = Some (n, caps) ->
        In (p, caps) (finditer pattern1 text)
        /\ In (in_text_of caps) (extract_citations text))
  /\ (forall p n caps,
        match_at pattern2 (drop p text) = Some (n, caps) ->
        In (p, caps) (finditer pattern2 text)
        /\ In (numbered_of caps) (extract_citations text)).
Proof.
  assert (Hm : forall r, Forall (fun o => exists n,
                            match_at r (drop (fst o) text) = Some (n, snd o))
                          (finditer r text)).
  { intros r. apply Forall_forall. intros [p caps] Hin.
    destruct (scan_matches r text 0 0 p caps Hin) as (n & _ & H).
    exists n. simpl. now rewrite Nat.sub_0_r in H. }
  split; [rewrite extract_citations_unfold; unfold findall; now rewrite !map_map |].
  split; [apply scan_increasing |].
  split; [apply scan_increasing |].
  split; [apply Hm |].
  split; [apply Hm |].
  split; [apply finditer_pattern1_complete | apply finditer_pattern2_complete].
Qed.

(** C4, as the code has it. A parenthesised run of author characters that
    opens with a capital, has one character more at least, does not end,
    once stripped, with a comma, and is followed by four digits is reported
    as an in-text mention: its authors are the run, stripped, and its year
    the four digits. A bracketed run of digits is reported as a numbered
    mention whose number is the run itself, a string. *)
Theorem extract_citations_reports
        (pre post : string) (U : ascii) (body y ds : string) :
  is_upper U = true ->
  body <> "" -> str_all author_char body = true ->
  last_char (strip (String U body)) <> Some ","%char ->
  String.length y = 4 -> str_all is_digit y = true ->
  ds <> "" -> str_all is_digit ds = true ->
  In (InText (strip (String U body)) y)
     (extract_citations (pre ++ "(" ++ String U body ++ y ++ ")" ++ post))
  /\ In (Numbered (VStr ds))
        (extract_citations (pre ++ "[" ++ ds ++ "]" ++ post)).
Proof.
  intros HU Hbody Hclass _ Hlen Hy Hds Hdigits.
  rewrite !extract_citations_unfold. split; apply in_or_app; [left | right].
  - destruct (match_at_in_text U body y post HU Hbody Hclass Hlen Hy) as [n Hm].
    apply (in_map in_text_of _ [String U body; y]).
    exact (finditer_finds "(" pattern1 pre _ n _ pattern1_interior Hm).
  - destruct (match_at_numbered ds post Hds Hdigits) as [n Hm].
    apply (in_map numbered_of _ [ds]).
    exact (finditer_finds "[" pattern2 pre _ n _ pattern2_interior Hm).
Qed.

Lemma extract_citations_reports_witness :
  In (InText "Smith & Jones" "2021")
     (extract_citations ("As shown " ++ "(" ++ "Smith & Jones " ++ "2021" ++ ")" ++ " and later."))
  /\ In (Numbered (VStr "12"))
        (extract_citations ("As shown " ++ "[" ++ "12" ++ "]" ++ " and later.")).
Proof.
  exact (extract_citations_reports "As shown " " and later." "S" "mith & Jones " "2021" "12"
           eq_refl ltac:(discriminate) eq_refl ltac:(discriminate) eq_refl eq_refl
           ltac:(discriminate) eq_refl).
Defined.

(** C4, the counterexample. The number of a numbered mention is the text
    between the brackets, not the integer it denotes: ["[007]"] gives the
    string ["007"], and no mention holds the integer 7. An author phrase of
    one capital alone is no match: ["(A2023)"] gives nothing. And on the
    example ["(Smith, 2023)"] the mention returned does not have the authors
    ["Smith"]. *)
Lemma extract_citations_number_is_text :
  extract_citations "See [007]." = [Numbered (VStr "007")]
  /\ py_int (VStr "007") = Some 7%Z
  /\ ~ In (Numbered (VInt 7)) (extract_citations "See [007].")
  /\ extract_citations "(A2023)" = []
  /\ ~ In (InText "Smith" "2023") (extract_citations "(Smith, 2023)").
Proof.
  split; [vm_compute; reflexivity |].
  split; [vm_compute; reflexivity |].
  split; [vm_compute; intros [H | []]; discriminate H |].
  split; [vm_compute; reflexivity |].
  vm_compute. intros [H | []]. discriminate H.
Qed.

(** ** Worked examples *)

Lemma generate_bibliography_sorted_joined_witness :
  generate_bibliography
    [citation_of ["Smith, J."] (VInt 2023) "Models";
     citation_of ["Adams, A."; "Brown, B."] (VStr "2020") "Surveys"]
    "APA 7th"
  = Ok ("Adams, A. & Brown, B. (2020). Surveys." ++ blank_line
        ++ "Smith, J. (2023). Models.").
Proof.
  rewrite (proj1 (proj2 (generate_bibliography_sorted_joined "APA 7th"))).
  reflexivity.
Defined.

(** A numbered mention that comes first in the text comes after the in-text
    mention in the result. *)
Example extract_citations_kinds_grouped :
  extract_citations "See [1], then (Smith & Jones 2021), then [2]."
  = [InText "Smith & Jones" "2021"; Numbered (VStr "1"); Numbered (VStr "2")].
Proof. vm_compute. reflexivity. Qed.

(** The first group of [pattern1] takes in the comma before the year, and
    it wants two characters. *)
Example extract_citations_trailing_comma :
  extract_citations "(Smith, 2023)" = [InText "Smith," "2023"]
  /\ extract_citations "(Smith,2023)" = [InText "Smith," "2023"]
  /\ extract_citations "(A2023)" = [].
Proof. repeat split; vm_compute; reflexivity. Qed.

(** The formatted test record in the five styles. *)
Example format_citation_styles :
  format_citation test_record "APA 7th"
  = Ok "Smith, J. & Jones, K. (2023). Test Article. Test Journal, 10(2), 100-110"
  /\ format_citation test_record "MLA 9th"
     = Ok ("Smith, J., and Jones, K.. " ++ dq ++ "Test Article." ++ dq
           ++ " Test Journal, vol. 10, no. 2, 2023, pp. 100-110.")
  /\ format_citation test_record "Chicago 17th"
     = Ok ("Smith, J., Jones, K.. " ++ dq ++ "Test Article." ++ dq
           ++ " Test Journal 10, no. 2 (2023): 100-110.")
  /\ format_citation test_record "IEEE"
     = Ok ("S. J., J. K., " ++ dq ++ "Test Article," ++ dq
           ++ " Test Journal, vol. 10, no. 2, pp. 100-110, 2023.")
  /\ format_citation test_record "Harvard"
     = Ok "Smith, J. and Jones, K. 2023, 'Test Article', Test Journal, vol. 10, no. 2, pp. 100-110.".
Proof. repeat split. Qed.

(** * Further properties of the citation manager *)

Lemma list_truthy_iff {A : Type} (l : list A) : list_truthy l = true <-> l <> [].
Proof. destruct l; simpl; split; intros H; try congruence; discriminate. Qed.

Lemma str_truthy_iff (s : string) : str_truthy s = true <-> s <> "".
Proof. destruct s; simpl; split; intros H; try congruence; discriminate. Qed.

(** X1. [validate_citation] accepts a dictionary exactly when the three
    required keys are present, the authors list and the title are not
    empty, and [int] reads the year as a number of [1500, current_year + 1];
    a dictionary without one of the keys is rejected, not an error. *)
Theorem validate_citation_iff (current_year : Z) (c : citation) :
  validate_citation current_year c = true
  <-> exists a v t y,
        c_authors c = Some a /\ a <> []
        /\ c_year c = Some v /\ py_int v = Some y
        /\ c_title c = Some t /\ t <> ""
        /\ (1500 <= y <= current_year + 1)%Z.
Proof.
  unfold validate_citation, missing_or_falsy. split.
  - destruct (c_authors c) as [a |]; [| discriminate].
    destruct (list_truthy a) eqn:Ea; [| discriminate].
    destruct (c_year c) as [v |]; [| discriminate].
    destruct (truthy v); [| discriminate].
    destruct (c_title c) as [t |]; [| discriminate].
    destruct (str_truthy t) eqn:Et; [| discriminate].
    simpl. destruct (py_int v) as [y |] eqn:Ey; [| discriminate].
    destruct (Z.ltb_spec y 1500); [discriminate |].
    destruct (Z.ltb_spec (current_year + 1) y); [discriminate |].
    intros _. exists a, v, t, y.
    apply list_truthy_iff in Ea. apply str_truthy_iff in Et.
    repeat split; try assumption; lia.
  - intros (a & v & t & y & -> & Ha & -> & Hy & -> & Ht & Hlo & Hhi).
    apply list_truthy_iff in Ha. apply str_truthy_iff in Ht.
    rewrite Ha, Ht, Hy.
    rewrite (py_int_truthy v y Hy) by lia. simpl.
    destruct (Z.ltb_spec y 1500); [lia |].
    destruct (Z.ltb_spec (current_year + 1) y); [lia | reflexivity].
Qed.

(** An accepted citation has an author and a year that [str] renders, the
    current year being one that [str] renders: [datetime] years are 9999 at
    most. *)
Lemma validate_citation_formattable (current_year : Z) (c : citation) :
  (current_year + 1 < 10 ^ Z.of_nat int_max_str_digits)%Z ->
  validate_citation current_year c = true -> formattable c.
Proof.
  intros Hnow. unfold validate_citation, missing_or_falsy, formattable. simpl.
  destruct (c_authors c) as [[| a l] |]; simpl; try discriminate.
  destruct (c_year c) as [v |]; simpl; [| discriminate].
  destruct (truthy v); simpl; [| discriminate].
  destruct (c_title c) as [t |]; simpl; [| discriminate].
  destruct (str_truthy t); simpl; [| discriminate].
  destruct v as [z | s]; simpl; [| intros _; split; [discriminate | reflexivity]].
  destruct (Z.ltb_spec z 1500); simpl; [discriminate |].
  destruct (Z.ltb_spec (current_year + 1) z); simpl; [discriminate |].
  intros _. split; [discriminate |].
  unfold str_of_Z.
  destruct (Z.ltb_spec (Z.abs z) (10 ^ Z.of_nat int_max_str_digits)); [reflexivity | lia].
Qed.

(** X2. A citation that [validate_citation] accepts is formatted to a
    string in every style, known or not, and a list of accepted citations
    always gives a bibliography: neither the [IndexError] of the empty
    authors list nor the [ValueError] of a year of too many digits can occur
    after validation, the current year being one that [str] renders, as
    every [datetime] year is. *)
Theorem validated_citations_format (current_year : Z) (citations : list citation)
        (style : string) :
  (current_year + 1 < 10 ^ Z.of_nat int_max_str_digits)%Z ->
  Forall (fun c => validate_citation current_year c = true) citations ->
  Forall (fun c => exists s, format_citation (record_of c) style = Ok s) citations
  /\ exists bibliography, generate_bibliography citations style = Ok bibliography.
Proof.
  intros Hnow Hall.
  assert (Hne : Forall formattable citations).
  { eapply Forall_impl; [| exact Hall]. intros c Hc.
    exact (validate_citation_formattable current_year c Hnow Hc). }
  split.
  - eapply Forall_impl; [| exact Hne]. intros c [Hc Hy].
    now apply format_citation_total.
  - destruct (format_each_total style citations Hne) as [fs Hfs].
    unfold generate_bibliography. rewrite bibliography_loop_format_each, Hfs.
    simpl. eauto.
Qed.

Lemma validated_citations_format_witness :
  exists bibliography,
    generate_bibliography
      [citation_of ["Smith, J."] (VStr "2023") "Models";
       citation_of ["Adams, A."] (VInt 1800) "Surveys"] "Vancouver"
    = Ok bibliography.
Proof.
  refine (proj2 (validated_citations_format 2029 _ "Vancouver" eq_refl _)).
  repeat constructor.
Defined.

Ltac split_truthy :=
  repeat match goal with
         | |- context [str_truthy ?x] => destruct (str_truthy x)
         end;
  unfold add_if.

Lemma py_str_cases (v : value) :
  (exists s, py_str v = Ok s) \/ py_str v = Raise ValueError.
Proof.
  destruct v as [z | s]; simpl; [| eauto]. unfold str_of_Z.
  destruct (Z.abs z <? 10 ^ Z.of_nat int_max_str_digits)%Z; eauto.
Qed.

Ltac leads_by r :=
  destruct (py_str_cases (year r)) as [[ys Ey] | Ey]; rewrite Ey;
  simpl; split_truthy; simpl;
  first [ left; str_norm; eexists; reflexivity | right; split; reflexivity ].

Lemma format_apa_leads (r : record) (a : string) (rest : list string) :
  authors r = a :: rest ->
  (exists tail, _format_apa r = Ok (a ++ tail))
  \/ (_format_apa r = Raise ValueError /\ py_str (year r) = Raise ValueError).
Proof.
  intros E. unfold _format_apa. rewrite E.
  destruct rest as [| b [| c rest]]; simpl; leads_by r.
Qed.

Lemma format_mla_leads (r : record) (a : string) (rest : list string) :
  authors r = a :: rest ->
  (exists tail, _format_mla r = Ok (a ++ tail))
  \/ (_format_mla r = Raise ValueError /\ py_str (year r) = Raise ValueError).
Proof.
  intros E. unfold _format_mla. rewrite E.
  destruct rest as [| b [| c rest]]; simpl; leads_by r.
Qed.

Lemma format_harvard_leads (r : record) (a : string) (rest : list string) :
  authors r = a :: rest ->
  (exists tail, _format_harvard r = Ok (a ++ tail))
  \/ (_format_harvard r = Raise ValueError /\ py_str (year r) = Raise ValueError).
Proof.
  intros E. unfold _format_harvard. rewrite E.
  destruct rest as [| b [| c rest]]; simpl; leads_by r.
Qed.

Lemma join_cons (sep x : string) (l : list string) :
  exists tail, join sep (x :: l) = x ++ tail.
Proof.
  destruct l as [| y l]; simpl.
  - exists "". now rewrite append_nil_r.
  - eexists; reflexivity.
Qed.

Lemma format_chicago_leads (r : record) (a : string) (rest : list string) :
  authors r = a :: rest ->
  (exists tail, _format_chicago r = Ok (a ++ tail))
  \/ (_format_chicago r = Raise ValueError /\ py_str (year r) = Raise ValueError).
Proof.
  intros E. unfold _format_chicago, chicago_author_str. rewrite E.
  destruct (join_cons ", " a rest) as [t ->].
  leads_by r.
Qed.

Lemma format_ieee_leads (r : record) (a : string) (rest : list string) :
  authors r = a :: rest ->
  (exists tail, _format_ieee r = Ok (spec_ieee_name a ++ tail))
  \/ (_format_ieee r = Raise ValueError /\ py_str (year r) = Raise ValueError).
Proof.
  intros E. unfold _format_ieee. rewrite E, ieee_author_str_spec.
  unfold spec_ieee_authors_clause.
  change (map spec_ieee_name (a :: rest))
    with (spec_ieee_name a :: map spec_ieee_name rest).
  generalize (spec_ieee_name a) as name. intros name.
  destruct (Nat.ltb 3 (List.length (a :: rest))).
  - cbn [hd bind]. leads_by r.
  - destruct (join_cons ", " name (map spec_ieee_name rest)) as [t ->].
    cbn [bind]. leads_by r.
Qed.

(** X3. In every style, known or not, the citation of a record with at
    least one author opens with the first author's name, in the IEEE style
    with that name reduced to initials and surname: the lexicographic sort
    of the bibliography is a sort on the first author first. The one
    failure left to such a record is the [ValueError] of a year that [str]
    does not render. *)
Theorem format_citation_leads (r : record) (style a : string) (rest : list string) :
  authors r = a :: rest ->
  (exists tail, format_citation r style = Ok (leading_name style a ++ tail))
  \/ (format_citation r style = Raise ValueError
      /\ py_str (year r) = Raise ValueError).
Proof.
  intros E. unfold format_citation, formatters, dict_get, leading_name.
  destruct (String.eqb_spec "APA 7th" style) as [<- | n1];
    [exact (format_apa_leads r a rest E) |].
  destruct (String.eqb_spec "MLA 9th" style) as [<- | n2];
    [exact (format_mla_leads r a rest E) |].
  destruct (String.eqb_spec "Chicago 17th" style) as [<- | n3];
    [exact (format_chicago_leads r a rest E) |].
  destruct (String.eqb_spec "IEEE" style) as [<- | n4];
    [exact (format_ieee_leads r a rest E) |].
  destruct (String.eqb_spec style "IEEE") as [-> | _]; [congruence |].
  destruct (String.eqb_spec "Harvard" style) as [<- | n5];
    [exact (format_harvard_leads r a rest E) | exact (format_apa_leads r a rest E)].
Qed.

Lemma format_citation_leads_witness :
  (exists tail, format_citation test_record "IEEE" = Ok ("S. J." ++ tail))
  \/ (format_citation test_record "IEEE" = Raise ValueError
      /\ py_str (year test_record) = Raise ValueError).
Proof.
  exact (format_citation_leads test_record "IEEE" "Smith, J." ["Jones, K."] eq_refl).
Defined.

(** X4. Without a journal every formatter drops the volume, the issue and
    the pages, and the MLA, Chicago and IEEE formatters drop the year as
    well: two records that agree on authors, title and DOI, both without a
    journal, are formatted alike whatever these fields hold. *)
Theorem format_citation_without_journal (r r' : record) (style : string) :
  journal r = "" -> journal r' = "" ->
  authors r = authors r' -> title r = title r' -> doi r = doi r' ->
  In style ["MLA 9th"; "Chicago 17th"; "IEEE"] \/ year r = year r' ->
  format_citation r style = format_citation r' style.
Proof.
  destruct r as [a y t j v i p d], r' as [a' y' t' j' v' i' p' d']. simpl.
  intros -> -> <- <- <- Hy.
  unfold format_citation, formatters, dict_get.
  destruct Hy as [[<- | [<- | [<- | []]]] | <-]; try reflexivity.
  repeat match goal with
         | |- context [String.eqb ?k style] => destruct (String.eqb k style)
         end; reflexivity.
Qed.

Lemma format_citation_without_journal_witness :
  format_citation
    {| authors := ["Smith, J."]; year := VInt 2023; title := "Models";
       journal := ""; volume := "10"; issue := "2"; pages := "1-9"; doi := "" |}
    "Chicago 17th"
  = format_citation
      {| authors := ["Smith, J."]; year := VInt 1999; title := "Models";
         journal := ""; volume := ""; issue := ""; pages := ""; doi := "" |}
      "Chicago 17th".
Proof.
  exact (format_citation_without_journal
           {| authors := ["Smith, J."]; year := VInt 2023; title := "Models";
              journal := ""; volume := "10"; issue := "2"; pages := "1-9"; doi := "" |}
           {| authors := ["Smith, J."]; year := VInt 1999; title := "Models";
              journal := ""; volume := ""; issue := ""; pages := ""; doi := "" |}
           "Chicago 17th" eq_refl eq_refl eq_refl eq_refl eq_refl
           (or_introl (or_intror (or_introl eq_refl)))).
Defined.

(** X5. [validate_citation_style] accepts exactly the keys of the
    formatter table; a style it rejects is formatted by the APA
    formatter. *)
Theorem validate_citation_style_formatters (style : string) :
  (validate_citation_style style = true <-> In style supported_styles)
  /\ (validate_citation_style style = false ->
      forall r, format_citation r style = _format_apa r).
Proof.
  assert (H : validate_citation_style style = true <-> In style supported_styles).
  { unfold validate_citation_style, str_in. rewrite existsb_exists. split.
    - intros (x & Hx & Heq). apply String.eqb_eq in Heq. now subst.
    - intros Hin. exists style. split; [exact Hin | apply String.eqb_refl]. }
  split; [exact H |].
  intros Hf r. unfold format_citation.
  rewrite (dict_get_default formatters style _format_apa); [reflexivity |].
  intros Hin. apply H in Hin. congruence.
Qed.

Lemma validate_citation_style_formatters_witness :
  format_citation test_record "apa 7th" = _format_apa test_record.
Proof.
  exact (proj2 (validate_citation_style_formatters "apa 7th") eq_refl test_record).
Defined.

(** * The matcher against the language of a pattern *)

Section Language.
Context {R : Type}.

Lemma star_sound_all (p : ascii -> bool) (s : string) (k : string -> option R) (res : R) :
  star p s k = Some res ->
  exists w s1, s = w ++ s1 /\ str_all p w = true /\ k s1 = Some res.
Proof. apply star_sound. Qed.

Lemma count_sound_length (n : nat) (p : ascii -> bool) :
  forall (s : string) (k : string -> option R) (res : R),
    count n p s k = Some res ->
    exists w s1,
      s = w ++ s1 /\ String.length w = n /\ str_all p w = true /\ k s1 = Some res.
Proof.
  induction n as [| n IH]; simpl; intros s k res H.
  - exists "", s. auto.
  - destruct s as [| c s]; [discriminate |].
    destruct (p c) eqn:Hc; [| discriminate].
    destruct (IH s k res H) as (w & s1 & -> & Hlen & Hw & Hk).
    exists (String c w), s1. simpl. rewrite Hc, Hw, Hlen. auto.
Qed.

(** Whatever [exec] accepts is a word of the pattern followed by a text
    the continuation accepts, with the groups of that word added. *)
Lemma exec_sound (r : regex) :
  forall (s : string) (caps : list string)
         (k : string -> list string -> option R) (res : R),
    exec r s caps k = Some res ->
    exists w s1 gs,
      s = w ++ s1 /\ derives r w gs /\ k s1 (caps ++ gs)%list = Some res.
Proof.
  induction r as [p | r1 IH1 r2 IH2 | r1 IH1 | p | p | p | n p];
    simpl; intros s caps k res H.
  - destruct s as [| c s]; [discriminate |].
    destruct (p c) eqn:Hc; [| discriminate].
    exists (String c ""), s, []. rewrite app_nil_r. eauto 6.
  - destruct (IH1 _ _ _ _ H) as (w1 & s1 & g1 & -> & D1 & H1).
    destruct (IH2 _ _ _ _ H1) as (w2 & s2 & g2 & -> & D2 & H2).
    exists (w1 ++ w2), s2, (g1 ++ g2)%list.
    rewrite append_assoc, app_assoc. eauto 10.
  - destruct (IH1 _ _ _ _ H) as (w & s1 & g & -> & D & H1).
    rewrite take_prefix, <- app_assoc in H1.
    exists w, s1, (g ++ [w])%list. eauto.
  - destruct s as [| c s]; [discriminate |].
    destruct (p c) eqn:Hc; [| discriminate].
    destruct (star_sound _ _ _ _ _ H) as (w & s1 & -> & Hw & Hk).
    exists (String c w), s1, []. rewrite app_nil_r. simpl. rewrite Hc, Hw.
    repeat split; auto. discriminate.
  - destruct (star_sound _ _ _ _ _ H) as (w & s1 & -> & Hw & Hk).
    exists w, s1, []. rewrite app_nil_r. auto.
  - destruct s as [| c s]; [exists "", "", []; rewrite app_nil_r; auto |].
    destruct (p c) eqn:Hc;
      [| exists "", (String c s), []; rewrite app_nil_r; auto].
    destruct (k s caps) as [r |] eqn:E.
    + injection H as ->. exists (String c ""), s, [].
      rewrite app_nil_r. eauto 8.
    + exists "", (String c s), []. rewrite app_nil_r. auto.
  - destruct (count_sound_length _ _ _ _ _ H) as (w & s1 & -> & Hlen & Hw & Hk).
    exists w, s1, []. rewrite app_nil_r. auto.
Qed.

Lemma star_complete (p : ascii -> bool) (w s1 : string) (k : string -> option R) :
  str_all p w = true -> k s1 <> None -> star p (w ++ s1) k <> None.
Proof.
  intros Hw Hk. induction w as [| c w IH]; simpl.
  - destruct s1 as [| c s1]; simpl; [exact Hk |].
    destruct (p c); [| exact Hk].
    destruct (star p s1 k); [discriminate | exact Hk].
  - simpl in Hw. apply andb_true_iff in Hw as [Hc Hw]. rewrite Hc.
    specialize (IH Hw). destruct (star p (w ++ s1) k); [discriminate | contradiction].
Qed.

(** [exec] accepts every word of the pattern that is followed by a text
    the continuation accepts. *)
Lemma exec_complete (r : regex) :
  forall (w s1 : string) (caps : list string)
         (k : string -> list string -> option R),
    lang r w ->
    (forall caps1, k s1 caps1 <> None) ->
    exec r (w ++ s1) caps k <> None.
Proof.
  induction r as [p | r1 IH1 r2 IH2 | r1 IH1 | p | p | p | n p];
    simpl; intros w s1 caps k L Hk.
  - destruct L as (c & -> & Hc). simpl. rewrite Hc. apply Hk.
  - destruct L as (w1 & w2 & -> & L1 & L2). rewrite append_assoc.
    apply IH1; [exact L1 |]. intros caps1. now apply IH2.
  - apply IH1; [exact L |]. intros caps1. apply Hk.
  - destruct L as (Hne & Hw). destruct w as [| c w]; [contradiction |].
    simpl in Hw |- *. apply andb_true_iff in Hw as [Hc Hw]. rewrite Hc.
    apply star_complete; [exact Hw | apply Hk].
  - apply star_complete; [exact L | apply Hk].
  - destruct L as [-> | (c & -> & Hc)]; simpl.
    + destruct s1 as [| c s1]; [apply Hk |].
      destruct (p c); [| apply Hk].
      destruct (k s1 caps); [discriminate | apply Hk].
    + rewrite Hc. specialize (Hk caps).
      destruct (k s1 caps); [discriminate | contradiction].
  - destruct L as (<- & Hw). rewrite count_exact by exact Hw. apply Hk.
Qed.
End Language.

Lemma derives_lang (r : regex) : forall w gs, derives r w gs -> lang r w.
Proof.
  induction r as [p | r1 IH1 r2 IH2 | r1 IH1 | p | p | p | n p];
    simpl; intros w gs D.
  - tauto.
  - destruct D as (w1 & w2 & g1 & g2 & -> & _ & D1 & D2).
    exists w1, w2. repeat split; [exact (IH1 _ _ D1) | exact (IH2 _ _ D2)].
  - destruct D as (g & _ & D). exact (IH1 _ _ D).
  - tauto.
  - tauto.
  - tauto.
  - tauto.
Qed.

Lemma match_at_derives (r : regex) (s : string) (n : nat) (caps : list string) :
  match_at r s = Some (n, caps) ->
  exists w s1, s = w ++ s1 /\ n = String.length w /\ derives r w caps.
Proof.
  unfold match_at. intros H.
  destruct (exec_sound r _ _ _ _ H) as (w & s1 & gs & -> & D & Hk).
  exists w, s1. injection Hk as <- <-.
  rewrite length_append. repeat split; [lia | exact D].
Qed.

(** * What the extractor reports *)

Lemma upper_not_space (c : ascii) : is_upper c = true -> is_space c = false.
Proof.
  destruct c as [[] [] [] [] [] [] [] []]; vm_compute; intros H;
    first [discriminate H | reflexivity].
Qed.

Lemma rstrip_head (c : ascii) (s : string) :
  is_space c = false -> exists x, rstrip (String c s) = String c x.
Proof.
  intros Hc. simpl. rewrite Hc. destruct (rstrip s); eauto.
Qed.

Lemma strip_head (c : ascii) (s : string) :
  is_space c = false -> exists x, strip (String c s) = String c x.
Proof.
  intros Hc. unfold strip. simpl lstrip. rewrite Hc. now apply rstrip_head.
Qed.

Lemma pattern1_derives (w : string) (gs : list string) :
  derives pattern1 w gs ->
  exists U body sep y,
    w = "(" ++ String U body ++ sep ++ y ++ ")"
    /\ gs = [String U body; y]
    /\ is_upper U = true
    /\ body <> "" /\ str_all author_char body = true
    /\ str_all (fun c => is_char "," c || is_space c) sep = true
    /\ String.length y = 4 /\ str_all is_digit y = true.
Proof.
  unfold pattern1. cbn [derives].
  intros (w1 & w2 & g1 & g2 & -> & -> & (-> & c1 & -> & H1) & D).
  destruct D as (w3 & w4 & g3 & g4 & -> & -> & (g & -> & DG) & D).
  destruct DG as (wu & wb & gu & gb & Hw3 & -> & (-> & U & -> & HU) & (-> & Hne & Hb)).
  destruct D as (w5 & w6 & g5 & g6 & -> & -> & (-> & Hopt) & D).
  destruct D as (w7 & w8 & g7 & g8 & -> & -> & (-> & Hsp) & D).
  destruct D as (w9 & w10 & g9 & g10 & -> & -> & (gy & -> & (-> & Hlen & Hy))
                 & (-> & c2 & -> & H2)).
  apply Ascii.eqb_eq in H1, H2. subst c1 c2 w3.
  exists U, wb, (w5 ++ w7), w9. simpl.
  repeat split; try assumption.
  - f_equal. f_equal. str_norm. reflexivity.
  - rewrite str_all_append. apply andb_true_iff. split.
    + destruct Hopt as [-> | (c & -> & Hc)]; [reflexivity |].
      simpl. now rewrite Hc.
    + apply (str_all_impl is_space); [| exact Hsp].
      intros c Hc. rewrite Hc. apply orb_true_r.
Qed.

Lemma pattern2_derives (w : string) (gs : list string) :
  derives pattern2 w gs ->
  exists ds,
    w = "[" ++ ds ++ "]" /\ gs = [ds]
    /\ ds <> "" /\ str_all is_digit ds = true.
Proof.
  unfold pattern2. cbn [derives].
  intros (w1 & w2 & g1 & g2 & -> & -> & (-> & c1 & -> & H1) & D).
  destruct D as (w3 & w4 & g3 & g4 & -> & -> & (g & -> & (-> & Hne & Hd))
                 & (-> & c2 & -> & H2)).
  apply Ascii.eqb_eq in H1, H2. subst c1 c2.
  exists w3. simpl. auto.
Qed.

Lemma finditer_occurs (r : regex) (text : string) (caps : list string) :
  In caps (findall r text) ->
  exists pre w post, text = pre ++ w ++ post /\ derives r w caps.
Proof.
  unfold findall. intros Hin. apply in_map_iff in Hin as ([p caps'] & <- & Hin).
  destruct (scan_matches r text 0 0 p caps' Hin) as (n & _ & Hm).
  destruct (match_at_derives r _ n caps' Hm) as (w & s1 & Hd & _ & D).
  exists (take (p - 0) text), w, s1. split; [| exact D].
  rewrite <- Hd. symmetry. apply take_drop.
Qed.

(** X6. Every in-text mention the extractor returns comes from the text:
    the text holds, between parentheses, a capital, a non-empty run of
    author characters, an optional comma and whitespace, and four digits;
    the mention's authors are the capital and the run, stripped, so that
    they open with the capital, and its year is the four digits. *)
Theorem extract_citations_in_text_sound (text a y : string) :
  In (InText a y) (extract_citations text) ->
  exists pre U body sep post,
    text = pre ++ "(" ++ String U body ++ sep ++ y ++ ")" ++ post
    /\ a = strip (String U body)
    /\ (exists x, a = String U x)
    /\ is_upper U = true
    /\ body <> "" /\ str_all author_char body = true
    /\ str_all (fun c => is_char "," c || is_space c) sep = true
    /\ String.length y = 4 /\ str_all is_digit y = true.
Proof.
  rewrite extract_citations_unfold. intros Hin.
  apply in_app_or in Hin as [Hin | Hin];
    apply in_map_iff in Hin as (caps & Heq & Hin); [| discriminate Heq].
  destruct (finditer_occurs pattern1 text caps Hin) as (pre & w & post & -> & D).
  destruct (pattern1_derives w caps D)
    as (U & body & sep & y' & -> & -> & HU & Hne & Hb & Hsep & Hlen & Hy).
  injection Heq as <- <-.
  exists pre, U, body, sep, post.
  repeat split; try assumption.
  - f_equal. str_norm. reflexivity.
  - apply strip_head. now apply upper_not_space.
Qed.

Lemma extract_citations_in_text_sound_witness :
  exists pre U body sep post,
    "See (Lee, 2020)." = pre ++ "(" ++ String U body ++ sep ++ "2020" ++ ")" ++ post
    /\ "Lee," = strip (String U body)
    /\ (exists x, "Lee," = String U x)
    /\ is_upper U = true
    /\ body <> "" /\ str_all author_char body = true
    /\ str_all (fun c => is_char "," c || is_space c) sep = true
    /\ String.length "2020" = 4 /\ str_all is_digit "2020" = true.
Proof.
  apply (extract_citations_in_text_sound "See (Lee, 2020)." "Lee," "2020").
  vm_compute. left. reflexivity.
Defined.

(** X7. Every numbered mention the extractor returns comes from the text:
    the text holds, between brackets, a non-empty run of digits, and the
    mention's number is that run, a string. *)
Theorem extract_citations_numbered_sound (text : string) (v : value) :
  In (Numbered v) (extract_citations text) ->
  exists pre ds post,
    text = pre ++ "[" ++ ds ++ "]" ++ post
    /\ v = VStr ds
    /\ ds <> "" /\ str_all is_digit ds = true.
Proof.
  rewrite extract_citations_unfold. intros Hin.
  apply in_app_or in Hin as [Hin | Hin];
    apply in_map_iff in Hin as (caps & Heq & Hin); [discriminate Heq |].
  destruct (finditer_occurs pattern2 text caps Hin) as (pre & w & post & -> & D).
  destruct (pattern2_derives w caps D) as (ds & -> & -> & Hne & Hd).
  injection Heq as <-.
  exists pre, ds, post.
  repeat split; try assumption.
  f_equal. str_norm. reflexivity.
Qed.

Lemma extract_citations_numbered_sound_witness :
  exists pre ds post,
    "See [007]." = pre ++ "[" ++ ds ++ "]" ++ post
    /\ VStr "007" = VStr ds
    /\ ds <> "" /\ str_all is_digit ds = true.
Proof.
  apply (extract_citations_numbered_sound "See [007]." (VStr "007")).
  vm_compute. left. reflexivity.
Defined.

Lemma lang_derives (r : regex) : forall w, lang r w -> exists gs, derives r w gs.
Proof.
  induction r as [p | r1 IH1 r2 IH2 | r1 IH1 | p | p | p | n p];
    simpl; intros w L; eauto.
  - destruct L as (w1 & w2 & -> & L1 & L2).
    destruct (IH1 _ L1) as [g1 D1]. destruct (IH2 _ L2) as [g2 D2].
    exists (g1 ++ g2)%list, w1, w2, g1, g2. auto.
  - destruct (IH1 _ L) as [g D]. eauto.
Qed.

Lemma separator_author_char (sep : string) :
  str_all (fun c => is_char "," c || is_space c) sep = true ->
  str_all author_char sep = true.
Proof.
  apply str_all_impl. intros c H. unfold author_char.
  apply orb_true_iff in H as [-> | ->]; rewrite ?orb_true_r; reflexivity.
Qed.

(** A word of [pattern1] inside a text is found by [findall]. *)
Lemma findall_pattern1_complete (pre w post : string) :
  lang pattern1 w -> findall pattern1 (pre ++ w ++ post) <> [].
Proof.
  intros L. destruct (lang_derives _ _ L) as [gs D].
  destruct (pattern1_derives w gs D)
    as (U & body & sep & y & -> & _ & HU & Hne & Hb & Hsep & Hlen & Hy).
  assert (Hbody : body ++ sep <> "") by (destruct body; [contradiction | discriminate]).
  assert (Hclass : str_all author_char (body ++ sep) = true)
    by (rewrite str_all_append, Hb; now apply separator_author_char).
  destruct (match_at_in_text U (body ++ sep) y post HU Hbody Hclass Hlen Hy) as [n Hm].
  pose proof (finditer_finds "(" pattern1 pre _ n _ pattern1_interior Hm) as Hin.
  replace (pre ++ ("(" ++ String U body ++ sep ++ y ++ ")") ++ post)
    with (pre ++ String "(" (String U (body ++ sep) ++ y ++ String ")" post))
    by (str_norm; reflexivity).
  intros E. rewrite E in Hin. contradiction.
Qed.

Lemma findall_pattern2_complete (pre w post : string) :
  lang pattern2 w -> findall pattern2 (pre ++ w ++ post) <> [].
Proof.
  intros L. destruct (lang_derives _ _ L) as [gs D].
  destruct (pattern2_derives w gs D) as (ds & -> & _ & Hne & Hd).
  destruct (match_at_numbered ds post Hne Hd) as [n Hm].
  pose proof (finditer_finds "[" pattern2 pre _ n _ pattern2_interior Hm) as Hin.
  replace (pre ++ ("[" ++ ds ++ "]") ++ post)
    with (pre ++ String "[" (ds ++ String "]" post))
    by (str_norm; reflexivity).
  intros E. rewrite E in Hin. contradiction.
Qed.

(** X8. The extractor returns the empty list exactly on the texts that
    hold no word of either pattern: no parenthesised author phrase and
    year, and no bracketed run of digits. *)
Theorem extract_citations_empty_iff (text : string) :
  extract_citations text = []
  <-> forall pre w post,
        text = pre ++ w ++ post -> ~ lang pattern1 w /\ ~ lang pattern2 w.
Proof.
  rewrite extract_citations_unfold. split.
  - intros E pre w post ->.
    apply app_eq_nil in E as [E1 E2].
    apply map_eq_nil in E1, E2.
    split; intros L.
    + exact (findall_pattern1_complete pre w post L E1).
    + exact (findall_pattern2_complete pre w post L E2).
  - intros H.
    destruct (findall pattern1 text) as [| caps l] eqn:E1.
    + destruct (findall pattern2 text) as [| caps l] eqn:E2; [reflexivity |].
      destruct (finditer_occurs pattern2 text caps) as (pre & w & post & Ht & D);
        [rewrite E2; now left |].
      destruct (H pre w post Ht) as [_ Hn]. destruct Hn. exact (derives_lang _ _ _ D).
    + destruct (finditer_occurs pattern1 text caps) as (pre & w & post & Ht & D);
        [rewrite E1; now left |].
      destruct (H pre w post Ht) as [Hn _]. destruct Hn. exact (derives_lang _ _ _ D).
Qed.

(** * The bibliography and the order of its input *)

Lemma str_le_trans (a b c : string) : str_le a b -> str_le b c -> str_le a c.
Proof.
  unfold str_le, String.leb. intros Hab Hbc.
  destruct (String.compare a b) eqn:Eab; [| | discriminate].
  - apply String.compare_eq_iff in Eab. now subst.
  - destruct (String.compare b c) eqn:Ebc; [| | discriminate].
    + apply String.compare_eq_iff in Ebc. subst. now rewrite Eab.
    + apply OrderedTypeEx.String_as_OT.cmp_lt in Eab, Ebc.
      pose proof (OrderedTypeEx.String_as_OT.lt_trans _ _ _ Eab Ebc) as Hac.
      apply OrderedTypeEx.String_as_OT.cmp_lt in Hac.
      unfold OrderedTypeEx.String_as_OT.cmp in Hac. now rewrite Hac.
Qed.

Lemma str_le_refl (a : string) : str_le a a.
Proof.
  unfold str_le, String.leb.
  destruct (String.compare a a) eqn:E; try reflexivity.
  pose proof (String.compare_antisym a a) as H. rewrite E in H. discriminate H.
Qed.

Lemma sort_strongly_sorted (l : list string) : StronglySorted str_le (sort l).
Proof.
  apply Sorted_StronglySorted; [| apply sort_sorted].
  intros a b c. apply str_le_trans.
Qed.

Lemma strongly_sorted_head (x : string) (l : list string) (y : string) :
  StronglySorted str_le (x :: l) -> In y (x :: l) -> str_le x y.
Proof.
  intros Hs [<- | Hin]; [apply str_le_refl |].
  apply StronglySorted_inv in Hs as [_ Hall].
  now apply (proj1 (Forall_forall _ _) Hall).
Qed.

(** Two sorted lists with the same entries are the same list. *)
Lemma sorted_perm_unique (l : list string) :
  forall l',
    StronglySorted str_le l -> StronglySorted str_le l' ->
    Permutation l l' -> l = l'.
Proof.
  induction l as [| x l IH]; intros l' Hs Hs' Hp.
  - now apply Permutation_nil in Hp.
  - destruct l' as [| y l'];
      [apply Permutation_sym, Permutation_nil in Hp; discriminate |].
    assert (Hxy : x = y).
    { apply String.leb_antisym.
      - apply (strongly_sorted_head x l y Hs).
        apply (Permutation_in _ (Permutation_sym Hp)). now left.
      - apply (strongly_sorted_head y l' x Hs').
        apply (Permutation_in _ Hp). now left. }
    subst y. f_equal.
    apply IH.
    + now apply StronglySorted_inv in Hs as [? _].
    + now apply StronglySorted_inv in Hs' as [? _].
    + now apply Permutation_cons_inv in Hp.
Qed.

Lemma sort_permutation (l l' : list string) :
  Permutation l l' -> sort l = sort l'.
Proof.
  intros Hp. apply sorted_perm_unique; try apply sort_strongly_sorted.
  eapply perm_trans; [apply Permutation_sym, sort_perm |].
  eapply perm_trans; [exact Hp | apply sort_perm].
Qed.

Lemma same_formatted_trans (a b c : result (list string)) :
  same_formatted a b -> same_formatted b c -> same_formatted a c.
Proof.
  destruct a, b, c; simpl; try tauto.
  apply perm_trans.
Qed.

(** Reordering the citations reorders the formatted entries; when one
    order meets a citation the formatter fails on, so does the other. *)
Lemma format_each_permutation (style : string) (l l' : list citation) :
  Permutation l l' ->
  same_formatted (format_each style l) (format_each style l').
Proof.
  induction 1 as [| c l l' _ IH | c d l | l l' l'' _ IH1 _ IH2].
  - simpl. constructor.
  - simpl. destruct (format_citation (record_of c) style) as [f |]; simpl;
      [| exact I].
    destruct (format_each style l) as [fs |], (format_each style l') as [fs' |];
      simpl in *; try tauto. now constructor.
  - simpl.
    destruct (format_citation (record_of c) style) as [f |],
             (format_citation (record_of d) style) as [g |]; simpl;
      try exact I.
    destruct (format_each style l) as [fs |]; simpl; [apply perm_swap | exact I].
  - exact (same_formatted_trans _ _ _ IH1 IH2).
Qed.

Lemma generate_bibliography_reordered
      (citations citations' : list citation) (style s : string) :
  Permutation citations citations' ->
  generate_bibliography citations style = Ok s ->
  generate_bibliography citations' style = Ok s.
Proof.
  intros Hp. unfold generate_bibliography.
  rewrite !bibliography_loop_format_each.
  pose proof (format_each_permutation style _ _ Hp) as H.
  destruct (format_each style citations) as [fs | e],
           (format_each style citations') as [fs' | e']; simpl in *;
    try tauto; try discriminate.
  now rewrite (sort_permutation fs fs' H).
Qed.

(** X9. The bibliography does not depend on the order of its input: of two
    lists holding the same citations, one gives a bibliography exactly when
    the other does, and then the two strings are the same. When one fails
    the other fails too, each with the exception of the first citation, in
    its own order, that the formatter fails on. *)
Theorem generate_bibliography_permutation
        (citations citations' : list citation) (style : string) :
  Permutation citations citations' ->
  (forall s, generate_bibliography citations style = Ok s
             <-> generate_bibliography citations' style = Ok s)
  /\ (is_ok (generate_bibliography citations style)
      = is_ok (generate_bibliography citations' style)).
Proof.
  intros Hp.
  assert (H : forall s, generate_bibliography citations style = Ok s
                        <-> generate_bibliography citations' style = Ok s).
  { intros s. split; apply generate_bibliography_reordered;
      [exact Hp | apply Permutation_sym, Hp]. }
  split; [exact H |].
  destruct (generate_bibliography citations style) as [s | e] eqn:E.
  - now rewrite (proj1 (H s) eq_refl).
  - destruct (generate_bibliography citations' style) as [s' | e'] eqn:E';
      [| reflexivity].
    pose proof (proj2 (H s') eq_refl) as F. discriminate F.
Qed.

Lemma generate_bibliography_permutation_witness :
  (forall s,
      generate_bibliography
        [citation_of ["Smith, J."] (VInt 2023) "Models";
         citation_of ["Adams, A."] (VInt 2020) "Surveys"] "Harvard" = Ok s
      <-> generate_bibliography
            [citation_of ["Adams, A."] (VInt 2020) "Surveys";
             citation_of ["Smith, J."] (VInt 2023) "Models"] "Harvard" = Ok s)
  /\ (is_ok (generate_bibliography
               [citation_of ["Smith, J."] (VInt 2023) "Models";
                citation_of ["Adams, A."] (VInt 2020) "Surveys"] "Harvard")
      = is_ok (generate_bibliography
                 [citation_of ["Adams, A."] (VInt 2020) "Surveys";
                  citation_of ["Smith, J."] (VInt 2023) "Models"] "Harvard")).
Proof.
  exact (generate_bibliography_permutation
           [citation_of ["Smith, J."] (VInt 2023) "Models";
            citation_of ["Adams, A."] (VInt 2020) "Surveys"]
           [citation_of ["Adams, A."] (VInt 2020) "Surveys";
            citation_of ["Smith, J."] (VInt 2023) "Models"]
           "Harvard" (perm_swap _ _ _)).
Defined.

(** * The pattern validators *)

Lemma at_dollar_iff (s : string) : at_dollar s = true <-> s = "" \/ s = LF.
Proof.
  destruct s as [| c [| d s]]; simpl; split; auto; try discriminate.
  - intros H. apply Ascii.eqb_eq in H. subst. now right.
  - intros [H | H]; [discriminate | now injection H as ->].
  - intros [H | H]; discriminate.
Qed.

(** A pattern between [^] and [$] accepts the words of its language, each
    alone or followed by one line feed. *)
Lemma match_anchored_iff (r : regex) (s : string) :
  match_anchored r s = true
  <-> exists w, lang r w /\ (s = w \/ s = w ++ LF).
Proof.
  unfold match_anchored. split.
  - destruct (exec r s [] _) as [u |] eqn:E; [| discriminate]. intros _.
    destruct (exec_sound r _ _ _ _ E) as (w & s1 & gs & -> & D & Hk).
    exists w. split; [exact (derives_lang _ _ _ D) |].
    destruct (at_dollar s1) eqn:Hd; [| discriminate].
    apply at_dollar_iff in Hd as [-> | ->]; [left; now rewrite append_nil_r | now right].
  - intros (w & L & Hs).
    assert (Hc : forall s1, at_dollar s1 = true ->
                   exec r (w ++ s1) [] (fun s2 _ => if at_dollar s2 then Some tt else None)
                   <> None).
    { intros s1 Hd. apply exec_complete; [exact L |]. intros _. now rewrite Hd. }
    destruct Hs as [-> | ->].
    + specialize (Hc "" eq_refl). rewrite append_nil_r in Hc.
      destruct (exec r w [] _); [reflexivity | contradiction].
    + specialize (Hc LF eq_refl).
      destruct (exec r (w ++ LF) [] _); [reflexivity | contradiction].
Qed.

Lemma length_take (n : nat) (s : string) :
  n <= String.length s -> String.length (take n s) = n.
Proof.
  revert s. induction n as [| n IH]; intros [| c s]; simpl; intros H;
    try reflexivity; try lia.
  rewrite IH; lia.
Qed.

Lemma str_all_take_drop (p : ascii -> bool) (n : nat) (s : string) :
  str_all p s = true -> str_all p (take n s) = true /\ str_all p (drop n s) = true.
Proof.
  intros H. rewrite <- (take_drop n s), str_all_append in H.
  now apply andb_true_iff in H.
Qed.

(** [set{n,}] *)
Lemma lang_at_least (n : nat) (p : ascii -> bool) (w : string) :
  lang (Cat (Count n p) (Star p)) w
  <-> n <= String.length w /\ str_all p w = true.
Proof.
  simpl. split.
  - intros (w1 & w2 & -> & (<- & H1) & H2).
    rewrite length_append, str_all_append, H1, H2. split; [lia | reflexivity].
  - intros (Hlen & Hw).
    destruct (str_all_take_drop p n w Hw) as [Ht Hd].
    exists (take n w), (drop n w).
    rewrite take_drop, length_take by exact Hlen. auto.
Qed.

(** X10. [validate_api_key] accepts exactly the keys other than the
    placeholder that are made of twenty or more letters, digits,
    underscores and dashes, alone or followed by one line feed. *)
Theorem validate_api_key_iff (api_key : string) :
  validate_api_key api_key = true
  <-> api_key <> api_key_placeholder
      /\ exists body,
           (api_key = body \/ api_key = body ++ LF)
           /\ 20 <= String.length body
           /\ str_all api_key_char body = true.
Proof.
  unfold validate_api_key. split.
  - destruct (str_truthy api_key); [| discriminate]. simpl.
    destruct (String.eqb_spec api_key api_key_placeholder) as [| Hne]; [discriminate |].
    intros H. apply match_anchored_iff in H as (w & L & Hs).
    apply lang_at_least in L as [Hlen Hw]. eauto.
  - intros (Hne & body & Hs & Hlen & Hw).
    assert (Ht : str_truthy api_key = true).
    { destruct Hs as [-> | ->]; destruct body; simpl in *; try reflexivity; lia. }
    rewrite Ht. simpl.
    destruct (String.eqb_spec api_key api_key_placeholder) as [| _]; [contradiction |].
    apply match_anchored_iff. exists body. split; [| exact Hs].
    now apply lang_at_least.
Qed.

(** X11. [validate_email] accepts exactly the texts made of a non-empty
    local part, an at sign, a non-empty domain part, a dot and two or more
    letters, alone or followed by one line feed; each part is judged by
    its characters only, so that dots may open, close or repeat in it. *)
Theorem validate_email_iff (email : string) :
  validate_email email = true
  <-> exists local domain tld,
        (email = local ++ "@" ++ domain ++ "." ++ tld
         \/ email = local ++ "@" ++ domain ++ "." ++ tld ++ LF)
        /\ local <> "" /\ str_all email_local_char local = true
        /\ domain <> "" /\ str_all email_domain_char domain = true
        /\ 2 <= String.length tld /\ str_all is_letter tld = true.
Proof.
  unfold validate_email. rewrite match_anchored_iff. split.
  - intros (w & L & Hs). unfold email_pattern in L. cbn [lang] in L.
    destruct L as (l & w1 & -> & [Hl1 Hl2] & c1 & w2 & -> & (a & -> & Ha)
                   & dm & w3 & -> & [Hd1 Hd2] & c2 & w4 & -> & (b & -> & Hb) & L).
    change (exists w5 w6, w4 = w5 ++ w6
                          /\ (String.length w5 = 2 /\ str_all is_letter w5 = true)
                          /\ str_all is_letter w6 = true)
      with (lang (Cat (Count 2 is_letter) (Star is_letter)) w4) in L.
    apply lang_at_least in L as [Ht1 Ht2].
    apply Ascii.eqb_eq in Ha, Hb. subst a b.
    exists l, dm, w4. repeat split; try assumption.
    destruct Hs as [-> | ->]; [left | right]; str_norm; reflexivity.
  - intros (l & dm & tld & Hs & Hl1 & Hl2 & Hd1 & Hd2 & Ht1 & Ht2).
    exists (l ++ "@" ++ dm ++ "." ++ tld). split.
    + unfold email_pattern. cbn [lang].
      exists l, ("@" ++ dm ++ "." ++ tld). repeat split; try assumption.
      exists "@", (dm ++ "." ++ tld). repeat split; [eauto |].
      exists dm, ("." ++ tld). repeat split; try assumption.
      exists ".", tld. repeat split; [eauto |].
      apply (proj2 (lang_at_least 2 is_letter tld)). auto.
    + destruct Hs as [-> | ->]; [left | right]; str_norm; reflexivity.
Qed.

(** X12. [validate_doi] accepts exactly the texts made of ["10."], four or
    more digits, a slash and a non-empty suffix of DOI characters, alone or
    followed by one line feed. *)
Theorem validate_doi_iff (doi : string) :
  validate_doi doi = true
  <-> exists registrant suffix,
        (doi = "10." ++ registrant ++ "/" ++ suffix
         \/ doi = "10." ++ registrant ++ "/" ++ suffix ++ LF)
        /\ 4 <= String.length registrant /\ str_all is_digit registrant = true
        /\ suffix <> "" /\ str_all doi_char suffix = true.
Proof.
  unfold validate_doi. rewrite match_anchored_iff. split.
  - intros (w & L & Hs). unfold doi_pattern in L. cbn [lang] in L.
    destruct L as (c1 & w1 & -> & (a & -> & Ha) & c2 & w2 & -> & (b & -> & Hb)
                   & c3 & w3 & -> & (c & -> & Hc) & r1 & w4 & -> & [Hr1 Hr2]
                   & r2 & w5 & -> & Hr3 & c4 & sf & -> & (d & -> & Hd) & [Hs1 Hs2]).
    apply Ascii.eqb_eq in Ha, Hb, Hc, Hd. subst a b c d.
    exists (r1 ++ r2), sf.
    rewrite length_append, str_all_append, Hr1, Hr2, Hr3.
    repeat split; try assumption; try lia.
    destruct Hs as [-> | ->]; [left | right]; str_norm; reflexivity.
  - intros (reg & sf & Hs & Hr1 & Hr2 & Hs1 & Hs2).
    exists ("10." ++ reg ++ "/" ++ sf). split.
    + unfold doi_pattern. cbn [lang].
      destruct (str_all_take_drop is_digit 4 reg Hr2) as [Ht Hd].
      exists "1", ("0." ++ reg ++ "/" ++ sf). repeat split; [eauto |].
      exists "0", ("." ++ reg ++ "/" ++ sf). repeat split; [eauto |].
      exists ".", (reg ++ "/" ++ sf). repeat split; [eauto |].
      exists (take 4 reg), (drop 4 reg ++ "/" ++ sf).
      split; [now rewrite <- (append_assoc (take 4 reg)), take_drop |].
      split; [split; [now apply length_take | exact Ht] |].
      exists (drop 4 reg), ("/" ++ sf). repeat split; [exact Hd |].
      exists "/", sf. repeat split; eauto.
    + destruct Hs as [-> | ->]; [left | right]; str_norm; reflexivity.
Qed.

(** * File names, questions and hypotheses *)

Lemma prefix_char (x c : ascii) (s : string) :
  String.prefix (String x "") (String c s) = Ascii.eqb c x.
Proof.
  simpl. destruct (ascii_dec x c) as [-> | Hne].
  - rewrite Ascii.eqb_refl. now destruct s.
  - symmetry. apply Ascii.eqb_neq. congruence.
Qed.

Lemma split_char_step (x c : ascii) (s cur : string) :
  split_str_go (String x "") (String c s) 0 cur
  = if Ascii.eqb c x then cur :: split_str_go (String x "") s 0 ""
    else split_str_go (String x "") s 0 (cur ++ String c "").
Proof.
  cbn [split_str_go]. rewrite prefix_char. reflexivity.
Qed.

Lemma split_char_nosep (x : ascii) (s : string) :
  str_all (differs x) s = true ->
  forall cur, split_str_go (String x "") s 0 cur = [cur ++ s].
Proof.
  induction s as [| c s IH]; intros H cur.
  - simpl. now rewrite append_nil_r.
  - simpl in H. apply andb_true_iff in H as [Hc Hs].
    rewrite split_char_step. unfold differs in Hc. apply negb_true_iff in Hc.
    rewrite Hc, (IH Hs). now rewrite append_assoc.
Qed.

Lemma split_char_sep (x : ascii) (a rest : string) :
  str_all (differs x) a = true ->
  forall cur,
    split_str_go (String x "") (a ++ String x rest) 0 cur
    = (cur ++ a) :: split_str_go (String x "") rest 0 "".
Proof.
  induction a as [| c a IH]; intros H cur.
  - simpl append. rewrite split_char_step, Ascii.eqb_refl. now rewrite append_nil_r.
  - simpl in H. apply andb_true_iff in H as [Hc Ha].
    change (String c a ++ String x rest) with (String c (a ++ String x rest)).
    rewrite split_char_step. unfold differs in Hc. apply negb_true_iff in Hc.
    rewrite Hc, (IH Ha). now rewrite append_assoc.
Qed.

Lemma split_char_last (x : ascii) (stem ext : string) :
  str_all (differs x) ext = true ->
  forall cur,
    exists l, split_str_go (String x "") (stem ++ String x ext) 0 cur = (l ++ [ext])%list.
Proof.
  intros Hext. induction stem as [| c stem IH]; intros cur.
  - simpl append. rewrite split_char_step, Ascii.eqb_refl.
    rewrite (split_char_nosep x ext Hext). exists [cur]. reflexivity.
  - change (String c stem ++ String x ext) with (String c (stem ++ String x ext)).
    rewrite split_char_step. destruct (Ascii.eqb c x).
    + destruct (IH "") as [l ->]. exists (cur :: l). reflexivity.
    + apply IH.
Qed.

Lemma index_last_snoc {A : Type} (l : list A) (x : A) : index_last (l ++ [x]) = Ok x.
Proof. unfold index_last. now rewrite rev_app_distr. Qed.

(** X13. [validate_file_type] never fails. It rejects the empty name; it
    judges a name by the lower-cased text after its last dot; and a name
    without a dot is judged whole, so that a file called ["PDF"] passes
    where ["pdf"] is an allowed type. *)
Theorem validate_file_type_extension (allowed : list string) :
  validate_file_type allowed "" = Ok false
  /\ (forall stem ext,
        str_all (differs ".") ext = true ->
        validate_file_type allowed (stem ++ "." ++ ext)
        = Ok (str_in (lower ext) allowed))
  /\ (forall name,
        name <> "" -> str_all (differs ".") name = true ->
        validate_file_type allowed name = Ok (str_in (lower name) allowed)).
Proof.
  split; [reflexivity |]. split.
  - intros stem ext Hext. unfold validate_file_type.
    replace (str_truthy (stem ++ "." ++ ext)) with true by (now destruct stem).
    cbn [negb]. unfold split_str.
    destruct (split_char_last "." stem ext Hext "") as [l Hl].
    change ("." ++ ext) with (String "." ext). rewrite Hl, index_last_snoc.
    reflexivity.
  - intros name Hne Hname. unfold validate_file_type.
    apply str_truthy_iff in Hne. rewrite Hne. cbn [negb]. unfold split_str.
    rewrite (split_char_nosep "." name Hname). reflexivity.
Qed.

Lemma validate_file_type_extension_witness :
  validate_file_type ["pdf"; "txt"] ("report.final" ++ "." ++ "PDF") = Ok true
  /\ validate_file_type ["pdf"; "txt"] "PDF" = Ok true.
Proof.
  split.
  - exact (proj1 (proj2 (validate_file_type_extension ["pdf"; "txt"]))
             "report.final" "PDF" eq_refl).
  - exact (proj2 (proj2 (validate_file_type_extension ["pdf"; "txt"]))
             "PDF" ltac:(discriminate) eq_refl).
Defined.

Lemma add_suggestion_if (b : bool) (text : string) (r : validation) :
  valid (if b then add_suggestion text r else r) = valid r
  /\ issues (if b then add_suggestion text r else r) = issues r.
Proof. destruct b; split; reflexivity. Qed.

(** X14. [validate_research_question] decides validity by length alone: a
    question is valid exactly when it has ten characters or more. Its list
    of issues is empty exactly between ten and a thousand characters, so
    that a question of more than a thousand characters is valid and yet
    carries an issue; and a question with a question mark is never told to
    be phrased as a question. *)
Theorem validate_research_question_valid (question : string) :
  (valid (validate_research_question question) = true
   <-> 10 <= String.length question)
  /\ (issues (validate_research_question question) = []
      <-> 10 <= String.length question <= 1000)
  /\ (contains "?" question = true ->
      ~ In "Consider phrasing as a clear question"
          (suggestions (validate_research_question question))).
Proof.
  unfold validate_research_question.
  destruct question as [| c q].
  - simpl. split; [split; [discriminate | lia] |].
    split; [split; [discriminate | lia] | discriminate].
  - cbn [str_truthy negb]. cbv zeta.
    set (n := String.length (String c q)).
    set (b := negb (existsb _ _)).
    split; [| split].
    + rewrite (proj1 (add_suggestion_if _ _ _)).
      destruct (Nat.ltb_spec n 10), (Nat.ltb_spec 1000 n); simpl;
        split; intros Hv; first [lia | discriminate Hv | reflexivity].
    + rewrite (proj2 (add_suggestion_if _ _ _)).
      destruct (Nat.ltb_spec n 10), (Nat.ltb_spec 1000 n); simpl;
        split; intros Hv; first [lia | discriminate Hv | reflexivity].
    + intros Hq. rewrite Hq, andb_false_r.
      destruct (Nat.ltb n 10), (Nat.ltb 1000 n); simpl;
        intros Hin; repeat destruct Hin as [Hin | Hin];
        first [discriminate Hin | contradiction].
Qed.

Lemma validate_research_question_valid_witness :
  ~ In "Consider phrasing as a clear question"
      (suggestions (validate_research_question "Climate?")).
Proof.
  exact (proj2 (proj2 (validate_research_question_valid "Climate?")) eq_refl).
Defined.

(** X15. [validate_hypothesis] decides validity by length alone: a
    hypothesis is valid exactly when it has twenty characters or more, and
    exactly then its list of issues is empty; its wording only adds
    suggestions. *)
Theorem validate_hypothesis_valid (hypothesis : string) :
  (valid (validate_hypothesis hypothesis) = true
   <-> 20 <= String.length hypothesis)
  /\ (issues (validate_hypothesis hypothesis) = []
      <-> valid (validate_hypothesis hypothesis) = true).
Proof.
  unfold validate_hypothesis.
  destruct hypothesis as [| c h].
  - simpl. split; split; first [discriminate | lia].
  - cbn [str_truthy negb]. cbv zeta.
    set (n := String.length (String c h)).
    rewrite !(proj1 (add_suggestion_if _ _ _)), !(proj2 (add_suggestion_if _ _ _)).
    destruct (Nat.ltb_spec n 20); simpl;
      split; split; intros Hv; first [lia | discriminate Hv | reflexivity].
Qed.

(** * Helpers *)

Lemma length_take_min (n : nat) (s : string) :
  String.length (take n s) = Nat.min n (String.length s).
Proof.
  revert s. induction n as [| n IH]; intros [| c s]; simpl; try reflexivity.
  now rewrite IH.
Qed.

(** X16. [truncate_text] returns a text that fits as it is. A longer text
    is cut to exactly [max_length] characters, suffix included, when the
    suffix fits in [max_length]; when the suffix is longer than
    [max_length] the slice bound is negative, counts from the end of the
    text, and the result is longer than [max_length]. *)
Theorem truncate_text_length (text : string) (max_length : Z) (suffix : string) :
  ((Z.of_nat (String.length text) <= max_length)%Z ->
   truncate_text text max_length suffix = text)
  /\ ((max_length < Z.of_nat (String.length text))%Z ->
      (Z.of_nat (String.length suffix) <= max_length)%Z ->
      Z.of_nat (String.length (truncate_text text max_length suffix)) = max_length
      /\ exists head, truncate_text text max_length suffix = head ++ suffix
                      /\ exists rest, text = head ++ rest)
  /\ ((max_length < Z.of_nat (String.length text))%Z ->
      (max_length < Z.of_nat (String.length suffix))%Z ->
      (max_length < Z.of_nat (String.length (truncate_text text max_length suffix)))%Z).
Proof.
  unfold truncate_text, slice_to. repeat split.
  - intros H. apply Z.leb_le in H. now rewrite H.
  - destruct (Z.leb_spec (Z.of_nat (String.length text)) max_length); [lia |].
    destruct (Z.ltb_spec (max_length - Z.of_nat (String.length suffix)) 0); [lia |].
    rewrite length_append, length_take_min. lia.
  - destruct (Z.leb_spec (Z.of_nat (String.length text)) max_length); [lia |].
    eexists. split; [reflexivity |]. eexists. symmetry. apply take_drop.
  - intros Ht Hs.
    destruct (Z.leb_spec (Z.of_nat (String.length text)) max_length); [lia |].
    rewrite length_append. lia.
Qed.

Lemma truncate_text_length_witness :
  Z.of_nat (String.length (truncate_text "abcdefghij" 5 "...")) = 5%Z
  /\ (2 < Z.of_nat (String.length (truncate_text "abcdefgh" 2 "...")))%Z.
Proof.
  split.
  - exact (proj1 (proj1 (proj2 (truncate_text_length "abcdefghij" 5 "..."))
                    ltac:(simpl; lia) ltac:(simpl; lia))).
  - exact (proj2 (proj2 (truncate_text_length "abcdefgh" 2 "..."))
             ltac:(simpl; lia) ltac:(simpl; lia)).
Defined.

Lemma concat_chunks {A : Type} (k : nat) :
  0 < k ->
  forall (m : nat) (l : list A),
    List.length l <= m * k ->
    List.concat (map (fun j => firstn k (skipn (j * k) l)) (seq 0 m)) = l.
Proof.
  intros Hk. induction m as [| m IH]; intros l Hlen.
  - destruct l; [reflexivity | simpl in Hlen; lia].
  - rewrite <- cons_seq, <- seq_shift. cbn [map List.concat]. rewrite map_map.
    transitivity (firstn k l ++ skipn k l)%list; [| apply firstn_skipn].
    f_equal.
    etransitivity; [| apply (IH (skipn k l)); rewrite length_skipn; lia].
    f_equal. apply map_ext. intros j. rewrite skipn_skipn. f_equal. f_equal. lia.
Qed.

Lemma ceil_div_bounds (n k : nat) :
  0 < k ->
  n <= (n + k - 1) / k * k
  /\ forall j, j < (n + k - 1) / k -> j * k < n.
Proof.
  intros Hk.
  pose proof (Nat.div_mod_eq (n + k - 1) k) as Hd.
  pose proof (Nat.mod_upper_bound (n + k - 1) k ltac:(lia)) as Hm.
  split; [nia |]. intros j Hj. nia.
Qed.

(** X17. With a positive size [chunk_list] cuts the list into chunks that
    put together give the list back, each with one element at least and
    [chunk_size] at most. With size zero it raises [ValueError], and with a
    negative size it returns no chunk at all, whatever the list holds. *)
Theorem chunk_list_chunks {A : Type} (lst : list A) (chunk_size : Z) :
  ((0 < chunk_size)%Z ->
   exists chunks,
     chunk_list lst chunk_size = Ok chunks
     /\ List.concat chunks = lst
     /\ Forall (fun c => 1 <= List.length c <= Z.to_nat chunk_size) chunks)
  /\ (chunk_size = 0%Z -> chunk_list lst chunk_size = Raise ValueError)
  /\ ((chunk_size < 0)%Z -> chunk_list lst chunk_size = Ok []).
Proof.
  unfold chunk_list, range_from_0, slice_chunk. repeat split.
  - intros Hpos.
    destruct (Z.eqb_spec chunk_size 0); [lia |].
    destruct (Z.ltb_spec chunk_size 0); [lia |].
    set (k := Z.to_nat chunk_size). assert (Hk : 0 < k) by (unfold k; lia).
    destruct (ceil_div_bounds (List.length lst) k Hk) as [Hcover Hin].
    cbn [bind]. rewrite map_map. eexists. split; [reflexivity |]. split.
    + now apply concat_chunks.
    + apply Forall_map, Forall_forall. intros j Hj. apply in_seq in Hj.
      specialize (Hin j ltac:(lia)).
      rewrite length_firstn, length_skipn. lia.
  - intros ->. reflexivity.
  - intros Hneg.
    destruct (Z.eqb_spec chunk_size 0); [lia |].
    destruct (Z.ltb_spec chunk_size 0); [reflexivity | lia].
Qed.

Lemma chunk_list_chunks_witness :
  exists chunks,
    chunk_list [1; 2; 3; 4; 5] 2 = Ok chunks
    /\ List.concat chunks = [1; 2; 3; 4; 5]
    /\ Forall (fun c => 1 <= List.length c <= Z.to_nat 2) chunks.
Proof.
  exact (proj1 (chunk_list_chunks [1; 2; 3; 4; 5] 2) ltac:(lia)).
Defined.

(** * Author strings *)

Lemma rstrip_idempotent (s : string) : rstrip (rstrip s) = rstrip s.
Proof.
  induction s as [| c s IH]; [reflexivity |].
  cbn [rstrip]. destruct (rstrip s) as [| d r] eqn:E.
  - destruct (is_space c) eqn:Hc; [reflexivity |]. simpl. now rewrite Hc.
  - cbn [rstrip]. cbn [rstrip] in IH. rewrite IH. reflexivity.
Qed.

Lemma lstrip_head (s : string) :
  match lstrip s with
  | String c _ => is_space c = false
  | EmptyString => True
  end.
Proof.
  induction s as [| c s IH]; simpl; [exact I |].
  destruct (is_space c) eqn:Hc; [exact IH | exact Hc].
Qed.

(** A stripped text has no whitespace left to strip. *)
Lemma strip_idempotent (s : string) : strip (strip s) = strip s.
Proof.
  unfold strip. pose proof (lstrip_head s) as H.
  destruct (lstrip s) as [| c x]; [reflexivity |].
  destruct (rstrip_head c x H) as [y Hy]. rewrite Hy.
  simpl lstrip. rewrite H. rewrite <- Hy. apply rstrip_idempotent.
Qed.

(** X18. Whatever delimiters the author string holds, [parse_authors]
    returns names that are not empty and have no whitespace at either
    end; a blank string gives no name. *)
Theorem parse_authors_names (authors_str : string) :
  Forall (fun name => name <> "" /\ strip name = name) (parse_authors authors_str).
Proof.
  unfold parse_authors.
  generalize (if contains ";" authors_str then split_str ";" authors_str
              else if contains "," authors_str && contains "&" authors_str
                   then re_split [comma_ampersand; comma_space] authors_str
                   else if contains "," authors_str then split_str "," authors_str
                        else if contains " and " authors_str
                             then split_str " and " authors_str
                             else [authors_str]) as pieces.
  intros pieces. apply Forall_map, Forall_forall. intros a Ha.
  apply filter_In in Ha as [_ Ha]. apply str_truthy_iff in Ha.
  split; [exact Ha | apply strip_idempotent].
Qed.

Lemma contains_char_append (x : ascii) (a b : string) :
  contains (String x "") (a ++ String x b) = true.
Proof.
  induction a as [| c a IH].
  - simpl append. cbn [contains]. rewrite prefix_char, Ascii.eqb_refl. reflexivity.
  - change (String c a ++ String x b) with (String c (a ++ String x b)).
    cbn [contains]. rewrite IH. apply orb_true_r.
Qed.

Lemma split_join_semicolons (names : list string) :
  forall name cur,
    Forall (fun n => str_all (differs ";") n = true) (name :: names) ->
    split_str_go ";" (join "; " (name :: names)) 0 cur
    = (cur ++ name) :: map (fun n => " " ++ n) names.
Proof.
  induction names as [| m names IH]; intros name cur Hall.
  - simpl join. apply split_char_nosep. now inversion Hall.
  - inversion Hall as [| ? ? Hname Hrest]; subst.
    change (join "; " (name :: m :: names))
      with (name ++ String ";" (String " " (join "; " (m :: names)))).
    rewrite (split_char_sep ";" name _ Hname). f_equal.
    rewrite split_char_step. change (Ascii.eqb " " ";") with false. cbv iota.
    rewrite (IH m ("" ++ " ") Hrest). reflexivity.
Qed.

Lemma strip_spaced_names (names : list string) :
  Forall (fun n => n <> "" /\ strip n = n) names ->
  map strip (filter (fun a => str_truthy (strip a)) (map (fun n => " " ++ n) names))
  = names.
Proof.
  induction 1 as [| n names [Hne Hs] _ IH]; [reflexivity |].
  cbn [map filter].
  assert (Hsp : strip (" " ++ n) = n) by (unfold strip in *; simpl; exact Hs).
  rewrite Hsp. apply str_truthy_iff in Hne. rewrite Hne.
  cbn [map]. now rewrite Hsp, IH.
Qed.

(** X19. Names joined by semicolons are read back as they were: two or
    more names, none empty, none with whitespace at either end, none with
    a semicolon, joined by ["; "], give the same names again, commas and
    ampersands inside the names left alone. *)
Theorem parse_authors_semicolons (first second : string) (others : list string) :
  Forall (fun n => n <> "" /\ strip n = n /\ str_all (differs ";") n = true)
         (first :: second :: others) ->
  parse_authors (join "; " (first :: second :: others)) = first :: second :: others.
Proof.
  intros Hall.
  assert (Hsemi : Forall (fun n => str_all (differs ";") n = true)
                         (first :: second :: others))
    by (eapply Forall_impl; [| exact Hall]; simpl; tauto).
  assert (Hclean : Forall (fun n => n <> "" /\ strip n = n) (first :: second :: others))
    by (eapply Forall_impl; [| exact Hall]; simpl; tauto).
  unfold parse_authors.
  replace (contains ";" (join "; " (first :: second :: others))) with true
    by (symmetry; apply (contains_char_append ";" first)).
  unfold split_str. rewrite (split_join_semicolons _ first "" Hsemi).
  inversion Hclean as [| ? ? [Hne Hs] Hrest]; subst.
  cbn [filter append]. rewrite Hs. apply str_truthy_iff in Hne. rewrite Hne.
  cbn [map]. rewrite Hs. f_equal. exact (strip_spaced_names (second :: others) Hrest).
Qed.

Lemma parse_authors_semicolons_witness :
  parse_authors (join "; " ["Smith, J."; "Jones, K. & Lee, R."])
  = ["Smith, J."; "Jones, K. & Lee, R."].
Proof.
  apply (parse_authors_semicolons "Smith, J." "Jones, K. & Lee, R." []).
  repeat constructor; discriminate.
Defined.

(** * The IEEE name transform applied twice *)

Lemma split_go_tokens_clean (s : string) :
  forall tok,
    str_all (fun c => negb (is_space c)) tok = true ->
    Forall token (split_go s tok).
Proof.
  induction s as [| c s IH]; intros tok Htok; simpl.
  - destruct (str_truthy tok) eqn:E; [| constructor].
    repeat constructor; [now apply str_truthy_iff | exact Htok].
  - destruct (is_space c) eqn:Hc.
    + destruct (str_truthy tok) eqn:E; [| now apply IH].
      constructor; [split; [now apply str_truthy_iff | exact Htok] | now apply IH].
    + apply IH. rewrite str_all_append, Htok. simpl. now rewrite Hc.
Qed.

Lemma split_tokens (s : string) : Forall token (split s).
Proof. now apply split_go_tokens_clean. Qed.

Lemma split_go_token (t s : string) :
  str_all (fun c => negb (is_space c)) t = true ->
  forall tok, split_go (t ++ s) tok = split_go s (tok ++ t).
Proof.
  induction t as [| c t IH]; intros Ht tok.
  - simpl. now rewrite append_nil_r.
  - simpl in Ht. apply andb_true_iff in Ht as [Hc Ht]. apply negb_true_iff in Hc.
    simpl. rewrite Hc, (IH Ht). now rewrite append_assoc.
Qed.

(** Tokens joined by single spaces split into the same tokens. *)
Lemma split_join_tokens (tokens : list string) :
  Forall token tokens -> split (join " " tokens) = tokens.
Proof.
  unfold split. induction 1 as [| t tokens [Hne Ht] Hrest IH]; [reflexivity |].
  destruct tokens as [| u tokens].
  - simpl join. rewrite <- (append_nil_r t) at 1.
    rewrite (split_go_token t "" Ht). simpl.
    apply str_truthy_iff in Hne. now rewrite Hne.
  - change (join " " (t :: u :: tokens))
      with (t ++ String " " (join " " (u :: tokens))).
    rewrite (split_go_token t _ Ht). simpl append.
    cbn [split_go]. change (is_space " ") with true. cbv iota.
    apply str_truthy_iff in Hne. rewrite Hne. now rewrite IH.
Qed.

Lemma join_snoc (sep : string) (x : string) (l : list string) (y : string) :
  join sep (x :: l) ++ sep ++ y = join sep ((x :: l) ++ [y]).
Proof.
  revert x. induction l as [| z l IH]; intros x.
  - reflexivity.
  - change (join sep (x :: z :: l)) with (x ++ sep ++ join sep (z :: l)).
    change (join sep ((x :: z :: l) ++ [y]))
      with (x ++ sep ++ join sep ((z :: l) ++ [y])).
    rewrite <- IH. str_norm. reflexivity.
Qed.

Lemma initial_token (t : string) : token t -> token (first_letter t ++ ".").
Proof.
  intros [Hne Ht]. destruct t as [| c t]; [contradiction |].
  simpl in Ht. apply andb_true_iff in Ht as [Hc _].
  split; [discriminate |]. simpl. now rewrite Hc.
Qed.

Lemma first_letter_initial (t : string) :
  token t -> first_letter (first_letter t ++ ".") = first_letter t.
Proof. intros [Hne _]. destruct t; [contradiction | reflexivity]. Qed.

(** The transformed name of two tokens or more, as tokens joined by
    spaces. *)
Lemma spec_ieee_name_tokens (author : string) :
  2 <= List.length (split author) ->
  spec_ieee_name author
  = join " " (map (fun t => first_letter t ++ ".") (removelast (split author))
              ++ [last (split author) ""]).
Proof.
  intros Hlen. unfold spec_ieee_name.
  destruct (Nat.leb_spec 2 (List.length (split author))); [| lia].
  destruct (removelast (split author)) as [| t ts] eqn:E.
  - destruct (split author) as [| a [| b l]]; simpl in *; try lia; discriminate.
  - rewrite <- (append_assoc (join ". " (map first_letter (t :: ts))) "." _).
    rewrite join_initials. cbn [map]. apply join_snoc.
Qed.

(** X20. The IEEE name transform changes nothing when it is applied to
    its own result: a name already reduced to initials and surname is left
    as it is. *)
Theorem spec_ieee_name_idempotent (author : string) :
  spec_ieee_name (spec_ieee_name author) = spec_ieee_name author
  /\ ieee_format_author (spec_ieee_name author) = Ok (spec_ieee_name author).
Proof.
  assert (H : spec_ieee_name (spec_ieee_name author) = spec_ieee_name author).
  { destruct (Nat.leb_spec 2 (List.length (split author))) as [Hlen | Hlen].
    - pose proof (split_tokens author) as Htok.
      rewrite (spec_ieee_name_tokens author Hlen).
      set (tokens := split author) in *.
      set (inits := map (fun t => first_letter t ++ ".") (removelast tokens)).
      assert (Hlast : token (last tokens "")).
      { apply (proj1 (Forall_forall _ _) Htok).
        destruct tokens; [simpl in Hlen; lia |].
        rewrite (app_removelast_last "" (l := s :: tokens)) at 2 by discriminate.
        apply in_or_app. right. now left. }
      assert (Hinits : Forall token inits).
      { apply Forall_map. eapply Forall_impl; [intros a; apply initial_token |].
        now apply removelast_Forall. }
      assert (Hall : Forall token (inits ++ [last tokens ""]))
        by (apply Forall_app; split; [exact Hinits | now constructor]).
      assert (Hn : 2 <= List.length (inits ++ [last tokens ""])).
      { rewrite length_app. unfold inits. rewrite length_map. simpl.
        destruct tokens as [| a [| b l]]; simpl in *; lia. }
      assert (Hsplit : split (join " " (inits ++ [last tokens ""]))
                       = (inits ++ [last tokens ""])%list)
        by now apply split_join_tokens.
      rewrite spec_ieee_name_tokens; rewrite Hsplit; [| exact Hn].
      rewrite removelast_last, last_last. f_equal. f_equal.
      unfold inits. rewrite map_map. apply map_ext_in.
      intros a Ha. f_equal. apply first_letter_initial.
      apply (proj1 (Forall_forall _ _) (removelast_Forall _ _ Htok)). exact Ha.
    - unfold spec_ieee_name at 2 3.
      destruct (Nat.leb_spec 2 (List.length (split author))); [lia |].
      unfold spec_ieee_name.
      destruct (Nat.leb_spec 2 (List.length (split author))); [lia | reflexivity]. }
  split; [exact H |]. now rewrite ieee_format_author_spec, H.
Qed.
